(** * A spreadsheet-style table editor: model of the table/row mutation
      handlers (App.tsx), the data grid (DataGrid) and the table creation
      dialog (CreateTableDialog.tsx), with the properties of its
      specification.

    Conventions of the embedding.

    - A JavaScript value stored in a row is one of the JSON scalars, or
      [undefined] when a key is read that the object does not have.
      Numbers are the integer-valued ones (a [Z]); strings are sequences of
      code units below 256, compared code unit by code unit.
    - A row is a JavaScript object: one finite map from property names to
      values. Its identifier is the property [id] and lives in the same
      map as the cell values.
    - An [async] handler is a computation over the application state which
      may throw; [await]ing a remote call records the call and asks the
      outcome to an oracle of the remote store. *)

From Stdlib Require Import ZArith String Ascii List Sorted Permutation.
From Stdlib Require Import Structures.OrderedTypeEx.
From stdpp Require Import base decidable option list gmap strings pretty sorting.

Local Open Scope string_scope.
Local Open Scope list_scope.
Local Open Scope Z_scope.

(** ** JavaScript values *)

Inductive Value : Type :=
  | VUndefined
  | VNull
  | VBool (b : bool)
  | VNumber (n : Z)
  | VString (s : string).

#[global] Instance Value_eq_dec : EqDecision Value.
Proof. solve_decision. Defined.

#[global] Instance Value_inhabited : Inhabited Value := populate VUndefined.

(** [ToBoolean]: what [if (v)], [!v] and [v || w] test. *)
Definition truthy (v : Value) : bool :=
  match v with
  | VUndefined | VNull => false
  | VBool b => b
  | VNumber n => negb (n =? 0)
  | VString s => negb (String.eqb s "")
  end.

(** [v || w] *)
Definition js_or (v w : Value) : Value := if truthy v then v else w.

(** [v === w]: on scalars without NaN, the same type and the same value. *)
Definition strict_eq (v w : Value) : bool := bool_decide (v = w).

(** White space and line terminators among the code units below 256:
    TAB, LF, VT, FF, CR, SP and NBSP. *)
Definition is_white_space (a : ascii) : bool :=
  let n := N_of_ascii a in
  ((9 <=? n) && (n <=? 13) || (n =? 32) || (n =? 160))%N.

Fixpoint trimStart (s : string) : string :=
  match s with
  | EmptyString => EmptyString
  | String a s' => if is_white_space a then trimStart s' else s
  end.

Fixpoint trimEnd (s : string) : string :=
  match s with
  | EmptyString => EmptyString
  | String a s' =>
      match trimEnd s' with
      | EmptyString => if is_white_space a then EmptyString else String a EmptyString
      | t => String a t
      end
  end.

(** [String.prototype.trim] *)
Definition trim (s : string) : string := trimEnd (trimStart s).

Definition digit_of (a : ascii) : option Z :=
  let n := N_of_ascii a in
  if ((48 <=? n) && (n <=? 57))%N then Some (Z.of_N n - 48) else None.

Fixpoint parse_digits (acc : Z) (s : string) : option Z :=
  match s with
  | EmptyString => Some acc
  | String a s' =>
      match digit_of a with
      | Some d => parse_digits (10 * acc + d) s'
      | None => None
      end
  end.

Definition parse_unsigned (s : string) : option Z :=
  match s with
  | EmptyString => None
  | _ => parse_digits 0 s
  end.

(** [StringToNumber] on the integer fragment: surrounding white space is
    dropped, the empty string is 0, an optionally signed run of decimal
    digits is its value and anything else is NaN ([None]). Literals with a
    fraction, an exponent or a radix prefix, and [Infinity], are numbers
    in the language but fall outside the integers modelled here, where
    they read as NaN. The comparison consults this function only when a
    string meets a value that is not a string; the general properties of
    the sort below are stated for columns where that does not happen. *)
Definition StringToNumber (s : string) : option Z :=
  match trim s with
  | EmptyString => Some 0
  | String "+" t => parse_unsigned t
  | String "-" t => Z.opp <$> parse_unsigned t
  | t => parse_unsigned t
  end.

(** [ToNumber]; [None] is NaN. *)
Definition ToNumber (v : Value) : option Z :=
  match v with
  | VUndefined => None
  | VNull => Some 0
  | VBool b => Some (if b then 1 else 0)
  | VNumber n => Some n
  | VString s => StringToNumber s
  end.

(** [v < w], the native relational comparison: two strings are compared
    lexicographically by code unit, any other pair numerically after
    [ToNumber], and a comparison with NaN is false. *)
Definition js_lt (v w : Value) : bool :=
  match v, w with
  | VString s, VString t => String.ltb s t
  | _, _ =>
      match ToNumber v, ToNumber w with
      | Some x, Some y => x <? y
      | _, _ => false
      end
  end.

(** [v > w] is [w < v]. *)
Definition js_gt (v w : Value) : bool := js_lt w v.

(** ** Data model (types/database.ts) *)

Inductive ColumnType : Type := text | number | date | boolean | select.

#[global] Instance ColumnType_eq_dec : EqDecision ColumnType.
Proof. solve_decision. Defined.

Record Column : Type := {
  col_id : string;
  col_name : string;
  col_type : ColumnType;
  col_options : option (list string);
  col_required : option bool;
  col_width : option Z
}.

(** [interface Row { id: string; [key: string]: any }] *)
Abbreviation Row := (gmap string Value).

(** [row[key]]: a property the object lacks reads as [undefined]. *)
Definition get (row : Row) (key : string) : Value :=
  default VUndefined (row !! key).

(** [row.id] *)
Definition row_id (row : Row) : Value := get row "id".

Record Table : Type := {
  tbl_id : string;
  tbl_name : string;
  columns : list Column;
  rows : list Row;
  createdAt : string;
  updatedAt : string;
  userId : string
}.

Definition with_columns (t : Table) (cs : list Column) : Table :=
  {| tbl_id := tbl_id t; tbl_name := tbl_name t; columns := cs; rows := rows t;
     createdAt := createdAt t; updatedAt := updatedAt t; userId := userId t |}.

Definition with_rows (t : Table) (rs : list Row) : Table :=
  {| tbl_id := tbl_id t; tbl_name := tbl_name t; columns := columns t; rows := rs;
     createdAt := createdAt t; updatedAt := updatedAt t; userId := userId t |}.

(** ** The application state and the handler monad (App.tsx) *)

(** [toast({ title, description, variant })]; [destructive] is
    [variant: "destructive"]. *)
Record Toast : Type := {
  title : string;
  description : string;
  destructive : bool
}.

(** The calls on the remote store, [blink.db.tables] and
    [blink.db.tableRows]. A serialised payload ([JSON.stringify]) is kept as
    the object that is serialised. *)
Inductive RemoteCall : Type :=
  | TablesCreate (id name : string) (cols : list Column) (owner : string)
  | TablesUpdate (id : string) (cols : list Column) (stamp : string)
  | TableRowsCreate (id tableId : string) (data : Row) (owner : string)
  | TableRowsUpdate (id : Value) (data : Row)
  | TableRowsDelete (id : Value).

(** The React state of [App] ([tables], [activeTable], [createTableOpen])
    together with what the handlers emit: the notifications, the console
    and the calls issued to the remote store. *)
Record AppState : Type := {
  tables : list Table;
  activeTable : option Table;
  createTableOpen : bool;
  toasts : list Toast;
  console : list string;
  remote_log : list RemoteCall
}.

Inductive Outcome (A : Type) : Type :=
  | Returned (a : A)
  | Thrown.
Arguments Returned {A} a.
Arguments Thrown {A}.

Definition M (A : Type) : Type := AppState -> Outcome A * AppState.

#[global] Instance M_ret : MRet M := fun A (a : A) s => (Returned a, s).

#[global] Instance M_bind : MBind M := fun A B (k : A -> M B) (m : M A) s =>
  match m s with
  | (Returned a, s') => k a s'
  | (Thrown, s') => (Thrown, s')
  end.

(** [try { body } catch (error) { handler }] *)
Definition try_catch (body handler : M unit) : M unit :=
  fun s =>
    match body s with
    | (Returned _, s') => (Returned tt, s')
    | (Thrown, s') => handler s'
    end.

Definition setTables (f : list Table -> list Table) : M unit :=
  fun s => (Returned tt,
    {| tables := f (tables s); activeTable := activeTable s;
       createTableOpen := createTableOpen s; toasts := toasts s;
       console := console s; remote_log := remote_log s |}).

Definition setActiveTable (t : option Table) : M unit :=
  fun s => (Returned tt,
    {| tables := tables s; activeTable := t;
       createTableOpen := createTableOpen s; toasts := toasts s;
       console := console s; remote_log := remote_log s |}).

Definition setCreateTableOpen (b : bool) : M unit :=
  fun s => (Returned tt,
    {| tables := tables s; activeTable := activeTable s;
       createTableOpen := b; toasts := toasts s;
       console := console s; remote_log := remote_log s |}).

Definition toast (t : Toast) : M unit :=
  fun s => (Returned tt,
    {| tables := tables s; activeTable := activeTable s;
       createTableOpen := createTableOpen s; toasts := toasts s ++ [t];
       console := console s; remote_log := remote_log s |}).

Definition console_error (msg : string) : M unit :=
  fun s => (Returned tt,
    {| tables := tables s; activeTable := activeTable s;
       createTableOpen := createTableOpen s; toasts := toasts s;
       console := console s ++ [msg]; remote_log := remote_log s |}).

Definition log_calls (cs : list RemoteCall) (s : AppState) : AppState :=
  {| tables := tables s; activeTable := activeTable s;
     createTableOpen := createTableOpen s; toasts := toasts s;
     console := console s; remote_log := remote_log s ++ cs |}.

(** The state a handler leaves behind. *)
Definition run (m : M unit) (s : AppState) : AppState := snd (m s).

Definition success (msg : string) : Toast :=
  {| title := "Success"; description := msg; destructive := false |}.

Definition failure (msg : string) : Toast :=
  {| title := "Error"; description := msg; destructive := true |}.

Definition dquote : string := String "034"%char EmptyString.

(** [prev.map(t => t.id === activeTable.id ? updatedTable : t)] *)
Definition replace_table (active updatedTable : Table) (prev : list Table) : list Table :=
  map (fun t => if String.eqb (tbl_id t) (tbl_id active) then updatedTable else t) prev.

Section Handlers.

(** The environment of a handler: the outcome of each remote call (true
    when the promise resolves, false when it rejects), the clock
    ([Date.now()] and [new Date().toISOString()]) and the signed-in
    user's id ([user.id]). *)
Variable remote_ok : RemoteCall -> bool.
Variable now : Z.
Variable isoNow : string.
Variable user_id : string.

(** [await call] *)
Definition await (c : RemoteCall) : M unit :=
  fun s => (if remote_ok c then Returned tt else Thrown, log_calls [c] s).

(** [await Promise.all(calls)]: every call is issued; the await throws
    when one of them is rejected. *)
Definition await_all (cs : list RemoteCall) : M unit :=
  fun s => (if forallb remote_ok cs then Returned tt else Thrown, log_calls cs s).

Definition handleCreateTable (name : string) (cols : list Column) : M unit :=
  try_catch
    (let tableId := "table_" +:+ pretty now in
     await (TablesCreate tableId name cols user_id) ;;
     let newTable :=
       {| tbl_id := tableId; tbl_name := name; columns := cols; rows := [];
          createdAt := isoNow; updatedAt := isoNow; userId := user_id |} in
     setTables (fun prev => newTable :: prev) ;;
     setActiveTable (Some newTable) ;;
     toast (success ("Table " +:+ dquote +:+ name +:+ dquote +:+ " created successfully")))
    (console_error "Failed to create table:" ;;
     toast (failure "Failed to create table")).

(** The handlers below close over the [activeTable] of the render they
    were created in: it is their first argument. *)

Definition handleColumnAdd (active : option Table) : M unit :=
  match active with
  | None => mret tt
  | Some activeTable =>
      let newColumn :=
        {| col_id := "col_" +:+ pretty now;
           col_name := "Column " +:+ pretty (Z.of_nat (length (columns activeTable)) + 1);
           col_type := text;
           col_options := None;
           col_required := Some false;
           col_width := Some 200 |} in
      let updatedColumns := columns activeTable ++ [newColumn] in
      try_catch
        (await (TablesUpdate (tbl_id activeTable) updatedColumns isoNow) ;;
         let updatedTable := with_columns activeTable updatedColumns in
         setActiveTable (Some updatedTable) ;;
         setTables (replace_table activeTable updatedTable) ;;
         toast (success "Column added successfully"))
        (console_error "Failed to add column:" ;;
         toast (failure "Failed to add column"))
  end.

Definition handleColumnDelete (active : option Table) (columnId : string) : M unit :=
  match active with
  | None => mret tt
  | Some activeTable =>
      let updatedColumns :=
        filter (fun col => col_id col <> columnId) (columns activeTable) in
      try_catch
        (await (TablesUpdate (tbl_id activeTable) updatedColumns isoNow) ;;
         let updatedRows := map (fun row : Row => delete columnId row) (rows activeTable) in
         await_all (map (fun row => TableRowsUpdate (row_id row) row) updatedRows) ;;
         let updatedTable := with_rows (with_columns activeTable updatedColumns) updatedRows in
         setActiveTable (Some updatedTable) ;;
         setTables (replace_table activeTable updatedTable) ;;
         toast (success "Column deleted successfully"))
        (console_error "Failed to delete column:" ;;
         toast (failure "Failed to delete column"))
  end.

(** [activeTable.columns.forEach(col => { newRowData[col.id] = ... })] *)
Definition fill_defaults (cols : list Column) (newRowData : Row) : Row :=
  foldl (fun (data : Row) col =>
           <[col_id col := if decide (col_type col = boolean) then VBool false else VString ""]> data)
        newRowData cols.

Definition handleRowAdd (active : option Table) : M unit :=
  match active with
  | None => mret tt
  | Some activeTable =>
      let rowId := "row_" +:+ pretty now in
      let newRowData := fill_defaults (columns activeTable) {[ "id" := VString rowId ]} in
      try_catch
        (await (TableRowsCreate rowId (tbl_id activeTable) newRowData user_id) ;;
         let updatedRows := rows activeTable ++ [newRowData] in
         let updatedTable := with_rows activeTable updatedRows in
         setActiveTable (Some updatedTable) ;;
         setTables (replace_table activeTable updatedTable) ;;
         toast (success "Row added successfully"))
        (console_error "Failed to add row:" ;;
         toast (failure "Failed to add row"))
  end.

Definition handleRowUpdate (active : option Table)
    (rowId : Value) (columnId : string) (value : Value) : M unit :=
  match active with
  | None => mret tt
  | Some activeTable =>
      let updatedRows :=
        map (fun row : Row =>
               if strict_eq (row_id row) rowId then <[columnId := value]> row else row)
            (rows activeTable) in
      try_catch
        (match List.find (fun r => strict_eq (row_id r) rowId) updatedRows with
         | Some updatedRow =>
             await (TableRowsUpdate rowId updatedRow) ;;
             let updatedTable := with_rows activeTable updatedRows in
             setActiveTable (Some updatedTable) ;;
             setTables (replace_table activeTable updatedTable)
         | None => mret tt
         end)
        (console_error "Failed to update row:" ;;
         toast (failure "Failed to update row"))
  end.

Definition handleRowDelete (active : option Table) (rowId : Value) : M unit :=
  match active with
  | None => mret tt
  | Some activeTable =>
      try_catch
        (await (TableRowsDelete rowId) ;;
         let updatedRows :=
           filter (fun row => row_id row <> rowId) (rows activeTable) in
         let updatedTable := with_rows activeTable updatedRows in
         setActiveTable (Some updatedTable) ;;
         setTables (replace_table activeTable updatedTable) ;;
         toast (success "Row deleted successfully"))
        (console_error "Failed to delete row:" ;;
         toast (failure "Failed to delete row"))
  end.

End Handlers.

(** ** The data grid (DataGrid) *)

Inductive SortDirection : Type := asc | desc.

#[global] Instance SortDirection_eq_dec : EqDecision SortDirection.
Proof. solve_decision. Defined.

(** A JavaScript [Set] of row identifiers: its elements in insertion
    order, without repetition. *)
Definition Set_has (v : Value) (s : list Value) : bool := bool_decide (v ∈ s).

Definition Set_add (v : Value) (s : list Value) : list Value :=
  if Set_has v s then s else s ++ [v].

Definition Set_delete (v : Value) (s : list Value) : list Value :=
  filter (fun w => w <> v) s.

(** [new Set(items)] *)
Definition Set_of (items : list Value) : list Value :=
  foldl (fun s v => Set_add v s) [] items.

(** The state of the grid: [selectedRows], [editingCell], [sortColumn]
    and [sortDirection]. *)
Record GridState : Type := {
  selectedRows : list Value;
  editingCell : option (Value * string);
  sortColumn : option string;
  sortDirection : SortDirection
}.

Definition initialGrid : GridState :=
  {| selectedRows := []; editingCell := None; sortColumn := None; sortDirection := asc |}.

Definition setSelectedRows (sel : list Value) (g : GridState) : GridState :=
  {| selectedRows := sel; editingCell := editingCell g;
     sortColumn := sortColumn g; sortDirection := sortDirection g |}.

Definition setEditingCell (c : option (Value * string)) (g : GridState) : GridState :=
  {| selectedRows := selectedRows g; editingCell := c;
     sortColumn := sortColumn g; sortDirection := sortDirection g |}.

Definition setSortColumn (c : option string) (g : GridState) : GridState :=
  {| selectedRows := selectedRows g; editingCell := editingCell g;
     sortColumn := c; sortDirection := sortDirection g |}.

Definition setSortDirection (d : SortDirection) (g : GridState) : GridState :=
  {| selectedRows := selectedRows g; editingCell := editingCell g;
     sortColumn := sortColumn g; sortDirection := d |}.

Definition handleCellClick (rowId : Value) (columnId : string) (g : GridState) : GridState :=
  setEditingCell (Some (rowId, columnId)) g.

(** The setters read the [sortColumn] and [sortDirection] of the render
    the handler was created in, here [g]. *)
Definition handleSort (columnId : string) (g : GridState) : GridState :=
  if bool_decide (sortColumn g = Some columnId) then
    setSortDirection (if decide (sortDirection g = asc) then desc else asc) g
  else
    setSortDirection asc (setSortColumn (Some columnId) g).

(** The comparator handed to [sort]. [!sortColumn] holds for [null] and
    for the empty string. *)
Definition compareRows (sortColumn : option string) (sortDirection : SortDirection)
    (a b : Row) : Z :=
  match sortColumn with
  | None => 0
  | Some column =>
      if String.eqb column "" then 0 else
      let aValue := get a column in
      let bValue := get b column in
      if js_lt aValue bValue then (if decide (sortDirection = asc) then -1 else 1)
      else if js_gt aValue bValue then (if decide (sortDirection = asc) then 1 else -1)
      else 0
  end.

(** [Array.prototype.sort(cmp)]. The language requires a stable sort and
    fixes the result when [cmp] is a consistent comparator; otherwise the
    order is left to the engine. The model is the stable insertion sort:
    an element goes in front of the first element it does not compare
    greater than. On a consistent comparator this is the list every
    conforming sort returns ([array_sort_is_the_stable_sort]); on an
    inconsistent one it is one of the orders the language allows, and an
    engine may return another. *)
Fixpoint sort_insert {A} (cmp : A -> A -> Z) (x : A) (l : list A) : list A :=
  match l with
  | [] => [x]
  | y :: l' => if cmp x y <=? 0 then x :: l else y :: sort_insert cmp x l'
  end.

Definition array_sort {A} (cmp : A -> A -> Z) (l : list A) : list A :=
  foldr (sort_insert cmp) [] l.

(** The comparator does not place [x] after [y]. *)
Definition cmp_le {A} (cmp : A -> A -> Z) (x y : A) : Prop := cmp x y <= 0.

(** [const sortedRows = [...rows].sort((a, b) => ...)] *)
Definition sortedRows (g : GridState) (rows : list Row) : list Row :=
  array_sort (compareRows (sortColumn g) (sortDirection g)) rows.

(** What [CellDisplay] renders. The formatting of dates, numbers and text
    ([toLocaleDateString], [toLocaleString], [String]) is kept symbolic. *)
Inductive Display : Type :=
  | EmptyPlaceholder
  | BooleanBox (checked : bool)
  | DateText (v : Value)
  | NumberText (v : Value)
  | PlainText (v : Value).

Definition CellDisplay (column : Column) (value : Value) : Display :=
  if bool_decide (value = VNull) || bool_decide (value = VUndefined)
     || bool_decide (value = VString "")
  then EmptyPlaceholder
  else
    match col_type column with
    | boolean => BooleanBox (truthy value)
    | date => DateText value
    | number => NumberText value
    | _ => PlainText value
    end.

(** What [renderCell] returns: the editor with its initial value, or the
    display of the value. *)
Inductive CellView : Type :=
  | EditorView (column : Column) (value : Value)
  | DisplayView (d : Display).

(** [editingCell?.rowId === row.id && editingCell?.columnId === column.id] *)
Definition isEditing (g : GridState) (row : Row) (column : Column) : bool :=
  match editingCell g with
  | Some (rowId, columnId) =>
      strict_eq rowId (row_id row) && String.eqb columnId (col_id column)
  | None => strict_eq VUndefined (row_id row) && false
  end.

(** [const value = row[column.id] || ''] *)
Definition cellValue (row : Row) (column : Column) : Value :=
  js_or (get row (col_id column)) (VString "").

Definition renderCell (g : GridState) (row : Row) (column : Column) : CellView :=
  let value := cellValue row column in
  if isEditing g row column then EditorView column value
  else DisplayView (CellDisplay column value).

(** The header check box: select every loaded row, or none. *)
Definition selectAllChange (checked : bool) (rows : list Row) (g : GridState) : GridState :=
  if checked then setSelectedRows (Set_of (map row_id rows)) g
  else setSelectedRows [] g.

(** The check box of a row. *)
Definition rowCheckedChange (checked : bool) (row : Row) (g : GridState) : GridState :=
  let newSelected := selectedRows g in
  setSelectedRows
    (if checked then Set_add (row_id row) newSelected
     else Set_delete (row_id row) newSelected) g.

Section Grid.

Variable remote_ok : RemoteCall -> bool.

(** The props [onRowDelete] and [onCellEdit] of the grid are the
    handlers of the render of [App] that produced the grid. *)
Definition onRowDelete (s0 : AppState) (rowId : Value) : M unit :=
  handleRowDelete remote_ok (activeTable s0) rowId.

Definition onCellEdit (s0 : AppState) (rowId : Value) (columnId : string)
    (value : Value) : M unit :=
  handleRowUpdate remote_ok (activeTable s0) rowId columnId value.

(** [handleCellBlur] *)
Definition handleCellBlur (rowId : Value) (columnId : string) (value : Value)
    (gs : GridState * AppState) : GridState * AppState :=
  let (g, s) := gs in
  (setEditingCell None g, run (onCellEdit s rowId columnId value) s).

(** The trash button of a row: [onClick={() => onRowDelete(row.id)}]. *)
Definition rowDeleteClick (row : Row) (gs : GridState * AppState)
    : GridState * AppState :=
  let (g, s) := gs in
  (g, run (onRowDelete s (row_id row)) s).

(** The [Delete (n)] button:
    [selectedRows.forEach(rowId => onRowDelete(rowId)); setSelectedRows(new Set())].
    Every call runs the handler of the same render, and therefore over
    the same captured [activeTable]; the handlers settle in the order in
    which they were started. *)
Definition bulkDeleteClick (gs : GridState * AppState) : GridState * AppState :=
  let (g, s) := gs in
  (setSelectedRows [] g,
   foldl (fun s' rowId => run (onRowDelete s rowId) s') s (selectedRows g)).

End Grid.

(** ** The table creation dialog (CreateTableDialog.tsx) *)

Record DialogState : Type := {
  tableName : string;
  dialogColumns : list Column
}.

Definition defaultColumns : list Column :=
  [ {| col_id := "col_1"; col_name := "Name"; col_type := text;
       col_options := None; col_required := Some true; col_width := Some 200 |};
    {| col_id := "col_2"; col_name := "Email"; col_type := text;
       col_options := None; col_required := Some false; col_width := Some 200 |} ].

Definition initialDialog : DialogState :=
  {| tableName := ""; dialogColumns := defaultColumns |}.

Section Dialog.

Variable remote_ok : RemoteCall -> bool.
Variable now : Z.
Variable isoNow : string.
Variable user_id : string.

(** [handleCreate]: [onCreateTable] is [handleCreateTable] and
    [onOpenChange] is [setCreateTableOpen]. *)
Definition handleCreate (ds : DialogState * AppState) : DialogState * AppState :=
  let (d, s) := ds in
  if truthy (VString (trim (tableName d))) && (0 <? Z.of_nat (length (dialogColumns d))) then
    let s1 := run (handleCreateTable remote_ok now isoNow user_id
                     (trim (tableName d)) (dialogColumns d)) s in
    (initialDialog, run (setCreateTableOpen false) s1)
  else ds.

End Dialog.

(** ** The other handlers of [App] *)

(** [Partial<Column>]: the keys an update carries. *)
Record ColumnUpdates : Type := {
  upd_id : option string;
  upd_name : option string;
  upd_type : option ColumnType;
  upd_options : option (list string);
  upd_required : option bool;
  upd_width : option Z
}.

(** [{ ...col, ...updates }] *)
Definition merge_column (col : Column) (updates : ColumnUpdates) : Column :=
  {| col_id := default (col_id col) (upd_id updates);
     col_name := default (col_name col) (upd_name updates);
     col_type := default (col_type col) (upd_type updates);
     col_options :=
       match upd_options updates with Some o => Some o | None => col_options col end;
     col_required :=
       match upd_required updates with Some r => Some r | None => col_required col end;
     col_width :=
       match upd_width updates with Some w => Some w | None => col_width col end |}.

(** [{ name }], the update sent by a column header. *)
Definition rename_to (name : string) : ColumnUpdates :=
  {| upd_id := None; upd_name := Some name; upd_type := None;
     upd_options := None; upd_required := None; upd_width := None |}.

(** [handleTableSelect]; [tables0] is the [tables] of the render the
    handler was created in. *)
Definition handleTableSelect (tables0 : list Table) (tableId : string) : M unit :=
  match List.find (fun t => String.eqb (tbl_id t) tableId) tables0 with
  | Some table => setActiveTable (Some table)
  | None => mret tt
  end.

Section MoreHandlers.

Variable remote_ok : RemoteCall -> bool.
Variable isoNow : string.

Definition handleColumnUpdate (active : option Table)
    (columnId : string) (updates : ColumnUpdates) : M unit :=
  match active with
  | None => mret tt
  | Some activeTable =>
      let updatedColumns :=
        map (fun col => if String.eqb (col_id col) columnId
                        then merge_column col updates else col)
            (columns activeTable) in
      try_catch
        (await remote_ok (TablesUpdate (tbl_id activeTable) updatedColumns isoNow) ;;
         let updatedTable := with_columns activeTable updatedColumns in
         setActiveTable (Some updatedTable) ;;
         setTables (replace_table activeTable updatedTable))
        (console_error "Failed to update column:" ;;
         toast (failure "Failed to update column"))
  end.

End MoreHandlers.

(** The environment of one user action. *)
Record Env : Type := {
  env_remote_ok : RemoteCall -> bool;
  env_now : Z;
  env_iso : string;
  env_user : string
}.

(** The user actions that reach the handlers of [App]. *)
Inductive Action : Type :=
  | CreateTable (name : string) (cols : list Column)
  | TableSelect (tableId : string)
  | ColumnAdd
  | ColumnUpdate (columnId : string) (updates : ColumnUpdates)
  | ColumnDelete (columnId : string)
  | RowAdd
  | RowUpdate (rowId : Value) (columnId : string) (value : Value)
  | RowDelete (rowId : Value).

(** One action on the current render: the handler closes over the
    [tables] and [activeTable] of the state it is started in. This is the
    handler's own update only. The effect that lists the tables again
    from the remote store when [activeTable] has changed ([loadTables],
    App.tsx 27-79) runs after the handler and is not part of [step], so
    properties of [step] speak of one handler run, not of the state the
    application settles in after the reload. *)
Definition step (e : Env) (a : Action) (s : AppState) : AppState :=
  match a with
  | CreateTable name cols =>
      run (handleCreateTable (env_remote_ok e) (env_now e) (env_iso e) (env_user e)
             name cols) s
  | TableSelect tableId => run (handleTableSelect (tables s) tableId) s
  | ColumnAdd =>
      run (handleColumnAdd (env_remote_ok e) (env_now e) (env_iso e) (activeTable s)) s
  | ColumnUpdate columnId updates =>
      run (handleColumnUpdate (env_remote_ok e) (env_iso e) (activeTable s)
             columnId updates) s
  | ColumnDelete columnId =>
      run (handleColumnDelete (env_remote_ok e) (env_iso e) (activeTable s) columnId) s
  | RowAdd => run (handleRowAdd (env_remote_ok e) (env_now e) (env_user e) (activeTable s)) s
  | RowUpdate rowId columnId value =>
      run (handleRowUpdate (env_remote_ok e) (activeTable s) rowId columnId value) s
  | RowDelete rowId => run (handleRowDelete (env_remote_ok e) (activeTable s) rowId) s
  end.

(** ** The header check box of the grid *)

(** [checked={selectedRows.size === rows.length && rows.length > 0}] *)
Definition headerChecked (g : GridState) (rows : list Row) : bool :=
  (length (selectedRows g) =? length rows)%nat && (0 <? length rows)%nat.

(** ** The column editor of the dialog (CreateTableDialog.tsx) *)

Definition setDialogColumns (cols : list Column) (d : DialogState) : DialogState :=
  {| tableName := tableName d; dialogColumns := cols |}.

(** [handleAddColumn]; [now] is [Date.now()]. *)
Definition handleAddColumn (now : Z) (d : DialogState) : DialogState :=
  let newColumn :=
    {| col_id := "col_" +:+ pretty now;
       col_name := "Column " +:+ pretty (Z.of_nat (length (dialogColumns d)) + 1);
       col_type := text;
       col_options := None;
       col_required := Some false;
       col_width := Some 200 |} in
  setDialogColumns (dialogColumns d ++ [newColumn]) d.

(** [handleUpdateColumn]. The index is one of those of
    [columns.map((column, index) => ...)]. Past the end the assignment
    would grow the array with holes, which no list of columns represents:
    [None]. *)
Definition handleUpdateColumn (index : nat) (updates : ColumnUpdates)
    (d : DialogState) : option DialogState :=
  match dialogColumns d !! index with
  | Some col => Some (setDialogColumns (<[index := merge_column col updates]> (dialogColumns d)) d)
  | None => None
  end.

(** [columns.filter((_, i) => i !== index)] *)
Fixpoint remove_index {A} (index : nat) (l : list A) {struct l} : list A :=
  match l, index with
  | [], _ => []
  | _ :: l', O => l'
  | x :: l', S i => x :: remove_index i l'
  end.

(** [handleRemoveColumn] *)
Definition handleRemoveColumn (index : nat) (d : DialogState) : DialogState :=
  if (1 <? length (dialogColumns d))%nat
  then setDialogColumns (remove_index index (dialogColumns d)) d
  else d.

(** [s.split(',')]: the pieces between the commas; the empty string has
    one (empty) piece. *)
Fixpoint split_comma (s : string) : list string :=
  match s with
  | EmptyString => [EmptyString]
  | String c s' =>
      if Ascii.eqb c ","%char then EmptyString :: split_comma s'
      else match split_comma s' with
           | piece :: pieces => String c piece :: pieces
           | [] => [String c EmptyString]
           end
  end.

(** [e.target.value.split(',').map(s => s.trim()).filter(Boolean)], the
    options an input text stands for. *)
Definition parseOptions (text : string) : list string :=
  List.filter (fun s => truthy (VString s)) (map trim (split_comma text)).

(** [options.join(', ')] *)
Fixpoint join_comma (options : list string) : string :=
  match options with
  | [] => EmptyString
  | [o] => o
  | o :: rest => o +:+ ", " +:+ join_comma rest
  end.

(** [column.options?.join(', ') || ''], the text shown in the options
    input. *)
Definition optionsText (column : Column) : string :=
  match col_options column with
  | Some options => join_comma options
  | None => EmptyString
  end.

(** The [onChange] of the options input of the column at [index]. *)
Definition optionsChange (index : nat) (text : string) (d : DialogState)
    : option DialogState :=
  handleUpdateColumn index
    {| upd_id := None; upd_name := None; upd_type := None;
       upd_options := Some (parseOptions text);
       upd_required := None; upd_width := None |} d.

(** ** The sidebar (Sidebar.tsx) *)

(** [String.prototype.toLowerCase] on code units below 256: the letters
    A-Z and the capital letters of Latin-1 (0xC0-0xDE but the
    multiplication sign 0xD7) move up by 32. *)
Definition lower_char (a : ascii) : ascii :=
  let n := N_of_ascii a in
  if ((65 <=? n) && (n <=? 90) || (192 <=? n) && (n <=? 222) && negb (n =? 215))%N
  then ascii_of_N (n + 32) else a.

Fixpoint toLowerCase (s : string) : string :=
  match s with
  | EmptyString => EmptyString
  | String a s' => String (lower_char a) (toLowerCase s')
  end.

(** [s.includes(q)]: [q] occurs in [s]. *)
Fixpoint includes (s q : string) : bool :=
  if String.prefix q s then true
  else match s with
       | EmptyString => false
       | String _ s' => includes s' q
       end.

(** An entry of the table list, [{ id, name }]. *)
Record TableEntry : Type := {
  entry_id : string;
  entry_name : string
}.

(** [tables.map(t => ({ id: t.id, name: t.name }))], the prop of the
    sidebar. *)
Definition tableEntries (ts : list Table) : list TableEntry :=
  map (fun t => {| entry_id := tbl_id t; entry_name := tbl_name t |}) ts.

(** [filteredTables] *)
Definition filteredTables (entries : list TableEntry) (searchQuery : string)
    : list TableEntry :=
  List.filter
    (fun table => includes (toLowerCase (entry_name table)) (toLowerCase searchQuery))
    entries.

(** ** Vocabulary of the properties, and sample tables *)

(** Rows [a], [b] are in the order of direction [d] on column [col]:
    ascending, [b] is not natively less than [a]; descending, [a] is not
    natively less than [b]. *)
Definition in_order (col : string) (d : SortDirection) (a b : Row) : Prop :=
  match d with
  | asc => js_lt (get b col) (get a col) = false
  | desc => js_lt (get a col) (get b col) = false
  end.

(** The sort column holds only numbers, or only strings. *)
Definition is_number (v : Value) : Prop := exists n, v = VNumber n.
Definition is_string (v : Value) : Prop := exists s, v = VString s.

Definition homogeneous (col : string) (rows : list Row) : Prop :=
  Forall (fun r => is_number (get r col)) rows \/
  Forall (fun r => is_string (get r col)) rows.


(** The grid sorted on [col] in direction [d]. *)
Definition sortBy (col : string) (d : SortDirection) : GridState :=
  {| selectedRows := []; editingCell := None;
     sortColumn := Some col; sortDirection := d |}.

(** Four rows of a table with a column [A]: the first holds 5, the last
    holds 3, and the two in between were created before the column was
    added and have no key [A]. *)
Definition rows_with_gaps : list Row :=
  [ {[ "id" := VString "row1"; "A" := VNumber 5 ]};
    {[ "id" := VString "row2" ]};
    {[ "id" := VString "row3" ]};
    {[ "id" := VString "row4"; "A" := VNumber 3 ]} ].

(** A table with columns [A] and [B] and two rows, row1.A = 5 and
    row2.A = 3. *)
Definition rows_5_3 : list Row :=
  [ {[ "id" := VString "row1"; "A" := VNumber 5; "B" := VString "x" ]};
    {[ "id" := VString "row2"; "A" := VNumber 3; "B" := VString "y" ]} ].

Definition flip_direction (d : SortDirection) : SortDirection :=
  match d with asc => desc | desc => asc end.

(** The falsy values a cell can hold; a missing key reads as
    [undefined]. *)
Definition falsy_values : list Value :=
  [VUndefined; VNull; VBool false; VNumber 0; VString ""].

(** A boolean column [Active] holding false and a number column [Count]
    holding 0. *)
Definition activeColumn : Column :=
  {| col_id := "Active"; col_name := "Active"; col_type := boolean;
     col_options := None; col_required := Some false; col_width := Some 200 |}.

Definition countColumn : Column :=
  {| col_id := "Count"; col_name := "Count"; col_type := number;
     col_options := None; col_required := Some false; col_width := Some 200 |}.

Definition falsy_row : Row :=
  {[ "id" := VString "row1"; "Active" := VBool false; "Count" := VNumber 0 ]}.

Definition initialApp : AppState :=
  {| tables := []; activeTable := None; createTableOpen := false;
     toasts := []; console := []; remote_log := [] |}.

(** The app showing table [t], the only table of the user. *)
Definition showing (t : Table) : AppState :=
  {| tables := [t]; activeTable := Some t; createTableOpen := false;
     toasts := []; console := []; remote_log := [] |}.

Definition nameColumn : Column :=
  {| col_id := "Name"; col_name := "Name"; col_type := text;
     col_options := None; col_required := Some true; col_width := Some 200 |}.

(** The table "Contacts" with columns [Name : text] and
    [Active : boolean] and the given rows. *)
Definition contacts (rs : list Row) : Table :=
  {| tbl_id := "table_1"; tbl_name := "Contacts";
     columns := [nameColumn; activeColumn]; rows := rs;
     createdAt := "2024-01-01T00:00:00.000Z";
     updatedAt := "2024-01-01T00:00:00.000Z"; userId := "user_1" |}.

Definition all_succeed : RemoteCall -> bool := fun _ => true.
Definition all_fail : RemoteCall -> bool := fun _ => false.

(** A table with columns [A : number] and [B : text] and the given
    rows. *)
Definition table_A (rs : list Row) : Table :=
  {| tbl_id := "table_1"; tbl_name := "Sheet";
     columns :=
       [ {| col_id := "A"; col_name := "A"; col_type := number;
            col_options := None; col_required := Some false; col_width := Some 200 |};
         {| col_id := "B"; col_name := "B"; col_type := text;
            col_options := None; col_required := Some false; col_width := Some 200 |} ];
     rows := rs;
     createdAt := "2024-01-01T00:00:00.000Z";
     updatedAt := "2024-01-01T00:00:00.000Z"; userId := "user_1" |}.

Definition contactsDialog : DialogState :=
  {| tableName := "  Contacts "; dialogColumns := [nameColumn; activeColumn] |}.

Definition contactRow (id name : string) (active : bool) : Row :=
  {[ "id" := VString id; "Name" := VString name; "Active" := VBool active ]}.

(** The value a new row gets for column [c]. *)
Definition default_value (c : Column) : Value :=
  if decide (col_type c = boolean) then VBool false else VString "".

(** Three rows holding the numbers 2, 9 and 5 in column [A]. *)
Definition rows_2_9_5 : list Row :=
  [ {[ "id" := VString "row1"; "A" := VNumber 2 ]};
    {[ "id" := VString "row2"; "A" := VNumber 9 ]};
    {[ "id" := VString "row3"; "A" := VNumber 5 ]} ].

(** The state after a handler committed table [u] in place of the active
    table [t], having issued [calls], with or without a success
    notification. *)
Definition committed (s : AppState) (calls : list RemoteCall) (t u : Table)
    (msg : option string) : AppState :=
  {| tables := replace_table t u (tables s);
     activeTable := Some u;
     createTableOpen := createTableOpen s;
     toasts := match msg with Some m => toasts s ++ [success m] | None => toasts s end;
     console := console s;
     remote_log := remote_log s ++ calls |}.

(** The state after a handler caught the rejection of one of [calls]: only
    the notification, the console and the log of calls have grown. *)
Definition rejected (s : AppState) (calls : list RemoteCall) (logged msg : string)
    : AppState :=
  {| tables := tables s;
     activeTable := activeTable s;
     createTableOpen := createTableOpen s;
     toasts := toasts s ++ [failure msg];
     console := console s ++ [logged];
     remote_log := remote_log s ++ calls |}.

(** The rows of [t] after [updateRow(rowId, columnId, value)]. *)
Definition rows_after_update (t : Table) (rowId : Value) (columnId : string)
    (value : Value) : list Row :=
  map (fun row : Row =>
         if strict_eq (row_id row) rowId then <[columnId := value]> row else row)
      (rows t).

(** The columns of [t] after [updateColumn(columnId, updates)]. *)
Definition columns_after_update (t : Table) (columnId : string)
    (updates : ColumnUpdates) : list Column :=
  map (fun col => if String.eqb (col_id col) columnId
                  then merge_column col updates else col)
      (columns t).

(** The column appended by [addColumn] at time [now]. *)
Definition added_column (t : Table) (now : Z) : Column :=
  {| col_id := "col_" +:+ pretty now;
     col_name := "Column " +:+ pretty (Z.of_nat (length (columns t)) + 1);
     col_type := text;
     col_options := None;
     col_required := Some false;
     col_width := Some 200 |}.

(** An environment whose remote store accepts every call. *)
Definition accepting (now : Z) : Env :=
  {| env_remote_ok := all_succeed; env_now := now;
     env_iso := "2023-11-14T22:13:20.000Z"; env_user := "user_1" |}.

(** An environment whose remote store rejects every call. *)
Definition rejecting (now : Z) : Env :=
  {| env_remote_ok := all_fail; env_now := now;
     env_iso := "2023-11-14T22:13:20.000Z"; env_user := "user_1" |}.

(** The string has no comma. *)
Fixpoint comma_free (s : string) : bool :=
  match s with
  | EmptyString => true
  | String c s' => negb (Ascii.eqb c ","%char) && comma_free s'
  end.

(** An option as the options input can express it: not empty, without
    white space at either end, and without a comma. *)
Definition clean_option (o : string) : Prop :=
  o <> "" /\ trim o = o /\ comma_free o = true.

(** A select column with the given options. *)
Definition selectColumn (options : list string) : Column :=
  {| col_id := "col_3"; col_name := "Status"; col_type := select;
     col_options := Some options; col_required := Some false; col_width := Some 200 |}.

(** The string does not begin with white space. *)
Definition starts_clean (s : string) : Prop :=
  match s with
  | EmptyString => True
  | String c _ => is_white_space c = false
  end.

(** A value that is compared as a number: null, a boolean, a number, or
    the empty string that a new row holds in every column but a boolean
    one. *)
Definition numeric_value (v : Value) : Prop :=
  match v with
  | VNull | VBool _ | VNumber _ => True
  | VString s => s = ""
  | VUndefined => False
  end.

(** The column holds values of one kind: strings only, or only values
    that are compared as numbers. *)
Definition one_kind (col : string) (rows : list Row) : Prop :=
  Forall (fun r => is_string (get r col)) rows \/
  Forall (fun r => numeric_value (get r col)) rows.

(** The comparator of the grid is a consistent comparator on the rows:
    there is no sort column (or it is the empty string, which the
    comparator treats alike), or the sort column holds values of one
    kind. *)
Definition consistent_sort (g : GridState) (rows : list Row) : Prop :=
  match sortColumn g with
  | None => True
  | Some col => col = "" \/ one_kind col rows
  end.

(** What the language requires of the result [output] of
    [input.sort(cmp)] when [cmp], here the comparator of the grid, is
    consistent: the same elements, none placed after an element it
    compares less than, and elements that compare equal in the order of
    the input. *)
Definition conforming (g : GridState) (input output : list Row) : Prop :=
  output ≡ₚ input /\
  StronglySorted (cmp_le (compareRows (sortColumn g) (sortDirection g))) output /\
  forall x, x ∈ input ->
    filter (fun r => compareRows (sortColumn g) (sortDirection g) x r = 0) output
    = filter (fun r => compareRows (sortColumn g) (sortDirection g) x r = 0) input.

(** Rows of a boolean column. *)
Definition rows_booleans : list Row :=
  [ {[ "id" := VString "row1"; "Active" := VBool true ]};
    {[ "id" := VString "row2"; "Active" := VBool false ]};
    {[ "id" := VString "row3"; "Active" := VBool true ]} ].

(** Rows of a number column in which one cell still holds the empty
    string a new row starts with. *)
Definition rows_5_blank_3 : list Row :=
  [ {[ "id" := VString "row1"; "A" := VNumber 5 ]};
    {[ "id" := VString "row2"; "A" := VString "" ]};
    {[ "id" := VString "row3"; "A" := VNumber 3 ]};
    {[ "id" := VString "row4"; "A" := VNumber 5 ]} ].

(** * Properties *)

(** ** The sort routine, for any comparator *)

Section SortFacts.

Context {A : Type} (cmp : A -> A -> Z).

Lemma sort_insert_perm x l : sort_insert cmp x l ≡ₚ x :: l.
Proof.
  induction l as [|y l IH]; simpl; [done|].
  destruct (cmp x y <=? 0); [done|].
  rewrite IH. apply Permutation_swap.
Qed.

Lemma array_sort_perm l : array_sort cmp l ≡ₚ l.
Proof.
  induction l as [|x l IH]; simpl; [done|].
  rewrite sort_insert_perm. by rewrite IH.
Qed.



(** A list whose neighbours are in order is left as it is. *)
Lemma array_sort_fixed l : Sorted (cmp_le cmp) l -> array_sort cmp l = l.
Proof.
  induction 1 as [|x l Hl IH Hhd]; simpl; [done|].
  rewrite IH. destruct Hhd as [|y l' Hxy]; simpl; [done|].
  unfold cmp_le in Hxy. apply Z.leb_le in Hxy. by rewrite Hxy.
Qed.

Hypothesis cmp_antisym : forall x y, 0 < cmp x y -> cmp y x <= 0.

Lemma sort_insert_Sorted x l :
  Sorted (cmp_le cmp) l -> Sorted (cmp_le cmp) (sort_insert cmp x l).
Proof.
  induction 1 as [|y l Hl IH Hhd]; simpl.
  - repeat constructor.
  - destruct (cmp x y <=? 0) eqn:Hxy.
    + apply Z.leb_le in Hxy. repeat constructor; done.
    + apply Z.leb_gt in Hxy. constructor; [done|].
      destruct Hhd as [|z l' Hyz]; simpl.
      * constructor. by apply cmp_antisym.
      * destruct (cmp x z <=? 0); constructor; [by apply cmp_antisym|done].
Qed.

Lemma array_sort_Sorted l : Sorted (cmp_le cmp) (array_sort cmp l).
Proof.
  induction l as [|x l IH]; simpl; [constructor|].
  by apply sort_insert_Sorted.
Qed.

Lemma array_sort_idempotent l :
  array_sort cmp (array_sort cmp l) = array_sort cmp l.
Proof. apply array_sort_fixed, array_sort_Sorted. Qed.

(** When the comparator is transitive on the elements at hand (a class
    [P] of them), the result is ordered throughout. *)
Variable P : A -> Prop.
Hypothesis cmp_trans :
  forall x y z, P x -> P y -> P z -> cmp_le cmp x y -> cmp_le cmp y z -> cmp_le cmp x z.

Lemma sort_insert_StronglySorted x l :
  P x -> Forall P l ->
  StronglySorted (cmp_le cmp) l -> StronglySorted (cmp_le cmp) (sort_insert cmp x l).
Proof.
  intros Hx HP Hl. induction Hl as [|y l Hl IH Hall]; simpl.
  - repeat constructor.
  - apply Forall_cons in HP as [Hy HP].
    destruct (cmp x y <=? 0) eqn:Hxy.
    + apply Z.leb_le in Hxy. constructor; [by constructor|].
      constructor; [done|].
      apply Forall_forall. intros z Hz.
      apply (cmp_trans x y z); try done.
      * by apply (proj1 (Forall_forall _ _) HP).
      * by apply (proj1 (Forall_forall _ _) Hall).
    + apply Z.leb_gt in Hxy. constructor; [by apply IH|].
      rewrite sort_insert_perm. constructor; [|done].
      by apply cmp_antisym.
Qed.

Lemma array_sort_StronglySorted l :
  Forall P l -> StronglySorted (cmp_le cmp) (array_sort cmp l).
Proof.
  induction l as [|x l IH]; simpl; intros HP; [constructor|].
  apply Forall_cons in HP as [Hx HP].
  apply sort_insert_StronglySorted; [done| |by apply IH].
  by rewrite array_sort_perm.
Qed.

End SortFacts.

(** ** The native ordering and the comparator of the grid *)

Lemma String_ltb_asym s t : String.ltb s t = true -> String.ltb t s = false.
Proof.
  unfold String.ltb. rewrite (String.compare_antisym t s).
  by destruct (String.compare s t).
Qed.

Lemma String_ltb_lt s t : String.ltb s t = true <-> String_as_OT.lt s t.
Proof.
  rewrite <- String_as_OT.cmp_lt. unfold String.ltb, String_as_OT.cmp.
  by destruct (String.compare s t).
Qed.

Lemma String_lt_trichotomy s t :
  String_as_OT.lt s t \/ s = t \/ String_as_OT.lt t s.
Proof.
  destruct (String.compare s t) eqn:Hc.
  - right; left. by apply String_as_OT.cmp_eq.
  - left. by apply String_as_OT.cmp_lt.
  - right; right. apply String_as_OT.cmp_lt. unfold String_as_OT.cmp.
    rewrite String.compare_antisym, Hc. done.
Qed.

(** On strings, "not greater than" is transitive. *)
Lemma String_ltb_le_trans s t u :
  String.ltb t s = false -> String.ltb u t = false -> String.ltb u s = false.
Proof.
  intros Hts Hut. apply not_true_is_false. intros Hus.
  apply String_ltb_lt in Hus.
  destruct (String_lt_trichotomy t u) as [Htu|[->|Htu]].
  - assert (String.ltb t s = true) as Hc; [|congruence].
    apply String_ltb_lt. by eapply String_as_OT.lt_trans.
  - apply String_ltb_lt in Hus. congruence.
  - apply String_ltb_lt in Htu. congruence.
Qed.

Lemma js_lt_asym v w : js_lt v w = true -> js_lt w v = false.
Proof.
  unfold js_lt.
  destruct v as [| |bv|n|s], w as [| |bw|m|t]; simpl;
    try apply String_ltb_asym; try done;
    repeat match goal with
           | |- context [StringToNumber ?u] => destruct (StringToNumber u)
           end;
    try done; intros H; apply Z.ltb_lt in H; apply Z.ltb_ge; lia.
Qed.

Lemma compareRows_opp c d a b : compareRows c d b a = - compareRows c d a b.
Proof.
  unfold compareRows, js_gt. destruct c as [col|]; [|done].
  destruct (String.eqb col ""); [done|].
  destruct (js_lt (get a col) (get b col)) eqn:Hab,
           (js_lt (get b col) (get a col)) eqn:Hba;
    try (apply js_lt_asym in Hab; congruence);
    by destruct (decide (d = asc)).
Qed.

Lemma compareRows_antisym c d a b :
  0 < compareRows c d a b -> compareRows c d b a <= 0.
Proof. rewrite compareRows_opp. lia. Qed.

Lemma compareRows_le col d a b :
  col <> "" -> cmp_le (compareRows (Some col) d) a b <-> in_order col d a b.
Proof.
  intros Hcol. unfold cmp_le, compareRows, js_gt, in_order.
  apply String.eqb_neq in Hcol. rewrite Hcol.
  destruct (js_lt (get a col) (get b col)) eqn:Hab,
           (js_lt (get b col) (get a col)) eqn:Hba;
    try (apply js_lt_asym in Hab; congruence);
    destruct d; simpl; split; (done || lia).
Qed.


Lemma in_order_trans_numbers col d a b c :
  is_number (get a col) -> is_number (get b col) -> is_number (get c col) ->
  in_order col d a b -> in_order col d b c -> in_order col d a c.
Proof.
  unfold in_order. intros [x ->] [y ->] [z ->].
  destruct d; simpl; rewrite !Z.ltb_ge; lia.
Qed.

Lemma in_order_trans_strings col d a b c :
  is_string (get a col) -> is_string (get b col) -> is_string (get c col) ->
  in_order col d a b -> in_order col d b c -> in_order col d a c.
Proof.
  unfold in_order. intros [x ->] [y ->] [z ->].
  destruct d; simpl; eauto using String_ltb_le_trans.
Qed.

Lemma StronglySorted_iff {A} (R S : A -> A -> Prop) l :
  (forall x y, R x y <-> S x y) -> StronglySorted R l -> StronglySorted S l.
Proof.
  intros HRS. induction 1 as [|x l Hl IH Hall]; constructor; [done|].
  eapply Forall_impl; [exact Hall|]. intros y. apply HRS.
Qed.


(** ** Sorting in the grid *)


(** The outcome does not hinge on the insertion sort: a stable merge sort
    never compares the first row with the last one either, and leaves
    these rows in place too. *)
#[local] Instance cmp_le_dec {A} (cmp : A -> A -> Z) x y : Decision (cmp_le cmp x y).
Proof. unfold cmp_le. apply _. Defined.

Example merge_sort_gaps_not_ordered :
  merge_sort (cmp_le (compareRows (Some "A") asc)) rows_with_gaps = rows_with_gaps.
Proof. by vm_compute. Qed.



(** The scenario of the specification: sorting by [A] ascending gives
    [row2, row1]; toggling to descending gives [row1, row2]. *)
Example sortedRows_scenario :
  map row_id (sortedRows (sortBy "A" asc) rows_5_3) = [VString "row2"; VString "row1"] /\
  map row_id (sortedRows (handleSort "A" (sortBy "A" asc)) rows_5_3)
    = [VString "row1"; VString "row2"].
Proof. split; by vm_compute. Qed.

(** The number editor commits the text of its input, and two strings are
    compared by code unit: "10" sorts before "9". *)
Example sortedRows_numeric_strings :
  map (fun r => get r "A")
      (sortedRows (sortBy "A" asc)
         [ {[ "id" := VString "row1"; "A" := VString "10" ]};
           {[ "id" := VString "row2"; "A" := VString "9" ]} ])
  = [VString "10"; VString "9"].
Proof. by vm_compute. Qed.

(** ** The sort state *)

(** C8: clicking the header of the column the grid is sorted on flips the
    direction and keeps the column, so that two clicks restore the
    direction; clicking any other column makes it the sort column, in
    ascending direction. The selection and the cell under edit are left
    alone. *)
Theorem handleSort_toggle g columnId :
  (sortColumn g = Some columnId ->
     sortColumn (handleSort columnId g) = Some columnId /\
     sortDirection (handleSort columnId g) = flip_direction (sortDirection g) /\
     sortDirection (handleSort columnId (handleSort columnId g)) = sortDirection g) /\
  (sortColumn g <> Some columnId ->
     sortColumn (handleSort columnId g) = Some columnId /\
     sortDirection (handleSort columnId g) = asc) /\
  selectedRows (handleSort columnId g) = selectedRows g /\
  editingCell (handleSort columnId g) = editingCell g.
Proof.
  unfold handleSort. split; [|split; [|split]].
  - intros Hc. rewrite bool_decide_eq_true_2 by done. simpl.
    rewrite Hc, bool_decide_eq_true_2 by done. simpl.
    by destruct (sortDirection g).
  - intros Hc. by rewrite bool_decide_eq_false_2 by done.
  - by case_bool_decide.
  - by case_bool_decide.
Qed.

Lemma handleSort_toggle_witness :
  (sortColumn (handleSort "A" (sortBy "A" desc)) = Some "A" /\
   sortDirection (handleSort "A" (sortBy "A" desc)) = asc /\
   sortDirection (handleSort "A" (handleSort "A" (sortBy "A" desc))) = desc) /\
  (sortColumn (handleSort "B" (sortBy "A" desc)) = Some "B" /\
   sortDirection (handleSort "B" (sortBy "A" desc)) = asc).
Proof.
  split.
  - apply (handleSort_toggle (sortBy "A" desc) "A"). reflexivity.
  - apply (handleSort_toggle (sortBy "A" desc) "B"). discriminate.
Defined.

(** ** Rendering a cell *)

Lemma truthy_false v : truthy v = false <-> v ∈ falsy_values.
Proof.
  unfold falsy_values. split.
  - destruct v as [| |[]|n|s]; simpl; intros H; try done.
    + set_solver.
    + set_solver.
    + set_solver.
    + apply negb_false_iff, Z.eqb_eq in H as ->. set_solver.
    + apply negb_false_iff, String.eqb_eq in H as ->. set_solver.
  - intros H. repeat (apply elem_of_cons in H as [->|H]; [done|]).
    by apply elem_of_nil in H.
Qed.

(** C10: a cell whose stored value is falsy (false, 0, null, undefined,
    the empty string) or whose key is missing is rendered from the empty
    string: the editor is opened on the empty string and the display is
    the Empty placeholder, whatever the type of the column. In particular
    a boolean column holding false does not show an unchecked box and a
    number column holding 0 does not show the digit. *)
Theorem renderCell_falsy_empty g row column :
  get row (col_id column) ∈ falsy_values ->
  cellValue row column = VString "" /\
  CellDisplay column (cellValue row column) = EmptyPlaceholder /\
  renderCell g row column
    = (if isEditing g row column then EditorView column (VString "")
       else DisplayView EmptyPlaceholder) /\
  renderCell g row column <> DisplayView (BooleanBox false) /\
  renderCell g row column <> DisplayView (NumberText (VNumber 0)).
Proof.
  intros Hf. apply truthy_false in Hf.
  assert (cellValue row column = VString "") as Hv.
  { unfold cellValue, js_or. by rewrite Hf. }
  unfold renderCell. rewrite Hv.
  repeat split; try done; by destruct (isEditing g row column).
Qed.

Lemma renderCell_falsy_empty_witness :
  renderCell initialGrid falsy_row activeColumn = DisplayView EmptyPlaceholder /\
  renderCell initialGrid falsy_row countColumn = DisplayView EmptyPlaceholder.
Proof.
  split.
  - apply (renderCell_falsy_empty initialGrid falsy_row activeColumn).
    vm_compute. set_solver.
  - apply (renderCell_falsy_empty initialGrid falsy_row countColumn).
    vm_compute. set_solver.
Defined.

(** ** The mutation handlers *)

Ltac run_handler :=
  unfold run, try_catch, mbind, M_bind, mret, M_ret, await, await_all,
    setTables, setActiveTable, setCreateTableOpen, toast, console_error,
    log_calls; simpl.

Lemma row_id_insert_ne (row : Row) columnId value :
  columnId <> "id" -> row_id (<[columnId := value]> row) = row_id row.
Proof. intros Hne. unfold row_id, get. by rewrite lookup_insert_ne. Qed.

Lemma find_is_Some {A} (f : A -> bool) l x :
  x ∈ l -> f x = true -> is_Some (List.find f l).
Proof.
  intros Hx Hf. destruct (List.find f l) eqn:Hfind; [by eexists|].
  apply list_elem_of_In in Hx.
  pose proof (find_none _ _ Hfind _ Hx). congruence.
Qed.

(** C2: when the row [rowId] is in the active table and the remote
    [tableRows.update] is rejected, [handleRowUpdate] leaves the tables and
    the active table as they were, so every row keeps its value; what it
    emits is at most the failure notification, and exactly that
    notification (with the error logged to the console) once the update
    call is issued, which it is for every column key other than the row's
    own [id] property. *)
Theorem handleRowUpdate_failure_keeps_state remote_ok s t rowId columnId value :
  activeTable s = Some t ->
  (exists r, r ∈ rows t /\ row_id r = rowId) ->
  (forall data, remote_ok (TableRowsUpdate rowId data) = false) ->
  let s' := run (handleRowUpdate remote_ok (activeTable s) rowId columnId value) s in
  tables s' = tables s /\
  activeTable s' = Some t /\
  createTableOpen s' = createTableOpen s /\
  (toasts s' = toasts s \/ toasts s' = toasts s ++ [failure "Failed to update row"]) /\
  (columnId <> "id" ->
     (exists data, remote_log s' = remote_log s ++ [TableRowsUpdate rowId data]) /\
     toasts s' = toasts s ++ [failure "Failed to update row"] /\
     console s' = console s ++ ["Failed to update row:"]).
Proof.
  intros Hactive (r & Hr & Hid) Hfail s'. subst s'.
  rewrite Hactive. unfold handleRowUpdate.
  set (updatedRows := map _ (rows t)).
  destruct (List.find (fun r0 => strict_eq (row_id r0) rowId) updatedRows)
    as [updatedRow|] eqn:Hfind.
  - run_handler. rewrite Hfail. simpl.
    repeat split; eauto.
  - run_handler.
    do 4 (split; [by eauto|]).
    intros Hcol. exfalso.
    assert (is_Some (List.find (fun r0 => strict_eq (row_id r0) rowId) updatedRows))
      as [? Hsome]; [|congruence].
    apply (find_is_Some _ _ (<[columnId := value]> r)).
    + subst updatedRows. apply list_elem_of_In, in_map_iff. exists r.
      split; [|by apply list_elem_of_In].
      unfold strict_eq. by rewrite bool_decide_eq_true_2.
    + unfold strict_eq. rewrite row_id_insert_ne by done.
      by apply bool_decide_eq_true_2.
Qed.

(** The scenario of the specification: [updateRow(table, row1.id, "A", 10)]
    with a failing remote store. *)
Lemma handleRowUpdate_failure_keeps_state_witness :
  let s := showing (table_A rows_5_3) in
  let s' := run (handleRowUpdate all_fail (activeTable s) (VString "row1") "A" (VNumber 10)) s in
  tables s' = tables s /\
  activeTable s' = Some (table_A rows_5_3) /\
  createTableOpen s' = createTableOpen s /\
  (toasts s' = toasts s \/ toasts s' = toasts s ++ [failure "Failed to update row"]) /\
  ("A" <> "id" ->
     (exists data, remote_log s' = remote_log s ++ [TableRowsUpdate (VString "row1") data]) /\
     toasts s' = toasts s ++ [failure "Failed to update row"] /\
     console s' = console s ++ ["Failed to update row:"]).
Proof.
  apply (handleRowUpdate_failure_keeps_state all_fail (showing (table_A rows_5_3))
           (table_A rows_5_3) (VString "row1") "A" (VNumber 10)).
  - reflexivity.
  - exists {[ "id" := VString "row1"; "A" := VNumber 5; "B" := VString "x" ]}.
    split; [|by vm_compute]. simpl. unfold rows_5_3. set_solver.
  - reflexivity.
Defined.

(** C5: for a name whose trimmed content is not empty and a list of at
    least one column, the dialog's [handleCreate] issues one remote
    [tables.create]. If it succeeds, a table named by the trimmed name,
    with exactly the given columns in their order and no rows, is put in
    front of the table list and becomes the active table; if it fails, the
    table list and the active table are unchanged and the failure is
    notified. *)
Theorem handleCreate_creates_table remote_ok (now : Z) isoNow user_id d s :
  trim (tableName d) <> "" ->
  dialogColumns d <> [] ->
  let s' := snd (handleCreate remote_ok now isoNow user_id (d, s)) in
  let call := TablesCreate ("table_" +:+ pretty now) (trim (tableName d))
                (dialogColumns d) user_id in
  remote_log s' = remote_log s ++ [call] /\
  (remote_ok call = true ->
     exists newTable,
       tbl_name newTable = trim (tableName d) /\
       columns newTable = dialogColumns d /\
       rows newTable = [] /\
       tables s' = newTable :: tables s /\
       activeTable s' = Some newTable) /\
  (remote_ok call = false ->
     tables s' = tables s /\
     activeTable s' = activeTable s /\
     toasts s' = toasts s ++ [failure "Failed to create table"]).
Proof.
  intros Hname Hcols s' call. subst s'. unfold handleCreate.
  apply String.eqb_neq in Hname. simpl. rewrite Hname. simpl.
  destruct (dialogColumns d) as [|c cs] eqn:Hd; [done|].
  replace (0 <? Z.of_nat (length (c :: cs))) with true
    by (symmetry; apply Z.ltb_lt; simpl; lia).
  unfold handleCreateTable. fold call. run_handler.
  split; [by destruct (remote_ok call)|].
  split; intros Hok; rewrite Hok; simpl; [|done].
  by refine (ex_intro _ _ (conj _ (conj _ (conj _ (conj eq_refl eq_refl))))).
Qed.

Lemma handleCreate_creates_table_witness :
  let s' := snd (handleCreate all_succeed 1700000000000 "2023-11-14T22:13:20.000Z"
                   "user_1" (contactsDialog, initialApp)) in
  exists newTable,
    tbl_name newTable = "Contacts" /\
    columns newTable = [nameColumn; activeColumn] /\
    rows newTable = [] /\
    tables s' = [newTable] /\
    activeTable s' = Some newTable.
Proof.
  apply (handleCreate_creates_table all_succeed 1700000000000
           "2023-11-14T22:13:20.000Z" "user_1" contactsDialog initialApp).
  - discriminate.
  - discriminate.
  - reflexivity.
Defined.

(** X25: An empty or blank name, or an empty column list, is refused before
    any remote call: nothing changes. *)
Lemma handleCreate_rejects remote_ok now isoNow user_id d s :
  trim (tableName d) = "" \/ dialogColumns d = [] ->
  handleCreate remote_ok now isoNow user_id (d, s) = (d, s).
Proof.
  intros [Hname|Hcols]; unfold handleCreate; simpl.
  - by rewrite Hname.
  - rewrite Hcols. simpl. by rewrite andb_false_r.
Qed.

Lemma generated_column_id_not_id (now : Z) : "col_" +:+ pretty now <> "id".
Proof. discriminate. Qed.

(** C9: on a table whose rows only have keys of its columns (besides
    [id]) and for a generated identifier that no column of the table
    bears, a successful [handleColumnAdd] puts exactly one column at the
    end of the column list, with the generated identifier, type text and
    width 200, and leaves the rows as they are: no row has the new key. *)
Theorem handleColumnAdd_appends remote_ok (now : Z) isoNow s t :
  activeTable s = Some t ->
  (forall cols stamp, remote_ok (TablesUpdate (tbl_id t) cols stamp) = true) ->
  (forall r k, r ∈ rows t -> is_Some (r !! k) -> k = "id" \/ k ∈ col_id <$> columns t) ->
  "col_" +:+ pretty now ∉ col_id <$> columns t ->
  let s' := run (handleColumnAdd remote_ok now isoNow (activeTable s)) s in
  exists newColumn t',
    activeTable s' = Some t' /\
    columns t' = columns t ++ [newColumn] /\
    col_id newColumn = "col_" +:+ pretty now /\
    col_type newColumn = text /\
    col_width newColumn = Some 200 /\
    rows t' = rows t /\
    (forall r, r ∈ rows t' -> r !! col_id newColumn = None).
Proof.
  intros Hactive Hok Hkeys Hfresh s'. subst s'.
  rewrite Hactive. unfold handleColumnAdd. run_handler. rewrite Hok. simpl.
  eexists _, _. repeat split.
  intros r Hr. simpl.
  destruct (r !! ("col_" +:+ pretty now)) as [v|] eqn:Hlookup; [|done].
  destruct (Hkeys r ("col_" +:+ pretty now) Hr) as [Hid|Hin]; [by eexists|..].
  - by apply generated_column_id_not_id in Hid.
  - done.
Qed.

Lemma handleColumnAdd_appends_witness :
  let t := contacts [contactRow "row_1" "Ada" true] in
  let s' := run (handleColumnAdd all_succeed 1700000000000
                   "2023-11-14T22:13:20.000Z" (Some t)) (showing t) in
  exists newColumn t',
    activeTable s' = Some t' /\
    columns t' = columns t ++ [newColumn] /\
    col_id newColumn = "col_1700000000000" /\
    col_type newColumn = text /\
    col_width newColumn = Some 200 /\
    rows t' = rows t /\
    (forall r, r ∈ rows t' -> r !! col_id newColumn = None).
Proof.
  apply (handleColumnAdd_appends all_succeed 1700000000000 "2023-11-14T22:13:20.000Z"
           (showing (contacts [contactRow "row_1" "Ada" true]))
           (contacts [contactRow "row_1" "Ada" true])).
  - reflexivity.
  - reflexivity.
  - intros r k Hr Hk. simpl in Hr. apply list_elem_of_singleton in Hr as ->.
    unfold contactRow in Hk. simpl.
    destruct (decide (k = "id")) as [|Hid]; [by left|right].
    destruct (decide (k = "Name")) as [->|Hname]; [set_solver|].
    destruct (decide (k = "Active")) as [->|Hact]; [set_solver|].
    rewrite !lookup_insert_ne, lookup_singleton_ne in Hk by done.
    by destruct Hk.
  - simpl. intros Hin.
    repeat (apply elem_of_cons in Hin as [Hin|Hin]; [discriminate|]).
    by apply elem_of_nil in Hin.
Defined.

(** C3: when the remote writes succeed, [handleColumnDelete] makes active a
    table in which no row has the key [colId] and no column bears the
    identifier [colId]; the other columns are kept, in their order, and
    every row keeps, at its position, the values of all its other keys. *)
Theorem handleColumnDelete_strips remote_ok isoNow s t colId :
  activeTable s = Some t ->
  (forall cols stamp, remote_ok (TablesUpdate (tbl_id t) cols stamp) = true) ->
  (forall id data, remote_ok (TableRowsUpdate id data) = true) ->
  let s' := run (handleColumnDelete remote_ok isoNow (activeTable s) colId) s in
  exists t',
    activeTable s' = Some t' /\
    (forall r, r ∈ rows t' -> r !! colId = None) /\
    (forall c, c ∈ columns t' -> col_id c <> colId) /\
    columns t' = filter (fun c => col_id c <> colId) (columns t) /\
    length (rows t') = length (rows t) /\
    (forall i r, rows t !! i = Some r ->
       exists r', rows t' !! i = Some r' /\ forall k, k <> colId -> r' !! k = r !! k).
Proof.
  intros Hactive Htable Hrows s'. subst s'.
  rewrite Hactive. unfold handleColumnDelete. run_handler. rewrite Htable. simpl.
  replace (forallb remote_ok _) with true.
  2:{ symmetry. apply forallb_forall. intros c Hc.
      apply in_map_iff in Hc as (r & <- & _). apply Hrows. }
  simpl. eexists. split; [reflexivity|]. simpl.
  split; [|split; [|split; [|split]]].
  - intros r Hr. apply list_elem_of_In, in_map_iff in Hr as (r0 & <- & _).
    apply lookup_delete_eq.
  - intros c Hc. by apply list_elem_of_filter in Hc as [Hc _].
  - done.
  - apply length_map.
  - intros i r Hi. exists (delete colId r). split.
    + change (map ?f ?l) with (f <$> l). by rewrite list_lookup_fmap, Hi.
    + intros k Hk. by apply lookup_delete_ne.
Qed.

Lemma handleColumnDelete_strips_witness :
  let t := contacts [contactRow "row_1" "Ada" true; contactRow "row_2" "Bob" false] in
  let s' := run (handleColumnDelete all_succeed "2023-11-14T22:13:20.000Z"
                   (Some t) "Active") (showing t) in
  exists t',
    activeTable s' = Some t' /\
    (forall r, r ∈ rows t' -> r !! "Active" = None) /\
    (forall c, c ∈ columns t' -> col_id c <> "Active") /\
    columns t' = filter (fun c => col_id c <> "Active") (columns t) /\
    length (rows t') = length (rows t) /\
    (forall i r, rows t !! i = Some r ->
       exists r', rows t' !! i = Some r' /\ forall k, k <> "Active" -> r' !! k = r !! k).
Proof.
  apply (handleColumnDelete_strips all_succeed "2023-11-14T22:13:20.000Z"
           (showing (contacts [contactRow "row_1" "Ada" true;
                               contactRow "row_2" "Bob" false]))
           (contacts [contactRow "row_1" "Ada" true; contactRow "row_2" "Bob" false])
           "Active").
  - reflexivity.
  - reflexivity.
  - reflexivity.
Defined.

(** The row identifier shares the row object with the cell values:
    deleting a column whose identifier is [id] strips the identifier of
    every row. *)
Example handleColumnDelete_id_key :
  let t := contacts [contactRow "row_1" "Ada" true] in
  rows <$> activeTable (run (handleColumnDelete all_succeed "" (Some t) "id") (showing t))
  = Some [ {[ "Name" := VString "Ada"; "Active" := VBool true ]} ].
Proof. by vm_compute. Qed.

(** *** Default values of a new row *)

Lemma fill_defaults_other cols (data : Row) k :
  k ∉ col_id <$> cols -> fill_defaults cols data !! k = data !! k.
Proof.
  revert data. induction cols as [|c cols IH]; intros data Hk; [done|].
  rewrite fmap_cons, not_elem_of_cons in Hk. destruct Hk as [Hne Hk].
  unfold fill_defaults in *. simpl. rewrite IH by done.
  by apply lookup_insert_ne.
Qed.

Lemma fill_defaults_column cols (data : Row) c :
  NoDup (col_id <$> cols) -> c ∈ cols ->
  fill_defaults cols data !! col_id c = Some (default_value c).
Proof.
  revert data. induction cols as [|c0 cols IH]; intros data Hnd Hc.
  - by apply elem_of_nil in Hc.
  - rewrite fmap_cons in Hnd. apply NoDup_cons in Hnd as [Hfresh Hnd].
    apply elem_of_cons in Hc as [->|Hc].
    + change (fill_defaults (c0 :: cols) data)
        with (fill_defaults cols (<[col_id c0 := default_value c0]> data)).
      rewrite fill_defaults_other by done. apply lookup_insert_eq.
    + change (fill_defaults (c0 :: cols) data)
        with (fill_defaults cols (<[col_id c0 := default_value c0]> data)).
      by apply IH.
Qed.

Lemma fill_defaults_keys cols (data : Row) k :
  is_Some (fill_defaults cols data !! k) <-> is_Some (data !! k) \/ k ∈ col_id <$> cols.
Proof.
  revert data. induction cols as [|c cols IH]; intros data.
  - simpl. split; [by left|]. intros [H|H]; [done|]. by apply elem_of_nil in H.
  - change (fill_defaults (c :: cols) data)
      with (fill_defaults cols (<[col_id c := default_value c]> data)).
    rewrite IH, fmap_cons, elem_of_cons, lookup_insert_is_Some.
    destruct (decide (col_id c = k)) as [->|Hne]; intuition (try congruence; eauto).
Qed.

(** C4: on a table whose column identifiers are pairwise distinct, a
    successful [handleRowAdd] appends one row to the end of the row list;
    the keys of that row are [id] and exactly the identifiers of the
    table's columns; its value is false for every boolean column and the
    empty string for every column of another type. *)
Theorem handleRowAdd_defaults remote_ok (now : Z) user_id s t :
  activeTable s = Some t ->
  NoDup (col_id <$> columns t) ->
  (forall id data, remote_ok (TableRowsCreate id (tbl_id t) data user_id) = true) ->
  let s' := run (handleRowAdd remote_ok now user_id (activeTable s)) s in
  exists newRow t',
    activeTable s' = Some t' /\
    rows t' = rows t ++ [newRow] /\
    columns t' = columns t /\
    (forall k, is_Some (newRow !! k) <-> k = "id" \/ k ∈ col_id <$> columns t) /\
    (forall c, c ∈ columns t ->
       newRow !! col_id c
       = Some (if decide (col_type c = boolean) then VBool false else VString "")) /\
    ("id" ∉ col_id <$> columns t -> newRow !! "id" = Some (VString ("row_" +:+ pretty now))).
Proof.
  intros Hactive Hnd Hok s'. subst s'.
  rewrite Hactive. unfold handleRowAdd. run_handler. rewrite Hok. simpl.
  eexists _, _. split; [reflexivity|]. simpl.
  split; [reflexivity|]. split; [reflexivity|].
  split; [|split].
  - intros k. rewrite fill_defaults_keys.
    destruct (decide (k = "id")) as [->|Hne].
    + rewrite lookup_singleton_eq. intuition eauto.
    + rewrite lookup_singleton_ne by done. rewrite <- not_eq_None_Some.
      intuition congruence.
  - intros c Hc. by apply fill_defaults_column.
  - intros Hid. rewrite fill_defaults_other by done. apply lookup_singleton_eq.
Qed.

Lemma handleRowAdd_defaults_witness :
  let t := contacts [] in
  let s' := run (handleRowAdd all_succeed 1700000000000 "user_1" (Some t)) (showing t) in
  exists newRow t',
    activeTable s' = Some t' /\
    rows t' = rows t ++ [newRow] /\
    columns t' = columns t /\
    (forall k, is_Some (newRow !! k) <-> k = "id" \/ k ∈ col_id <$> columns t) /\
    (forall c, c ∈ columns t ->
       newRow !! col_id c
       = Some (if decide (col_type c = boolean) then VBool false else VString "")) /\
    ("id" ∉ col_id <$> columns t -> newRow !! "id" = Some (VString "row_1700000000000")).
Proof.
  apply (handleRowAdd_defaults all_succeed 1700000000000 "user_1"
           (showing (contacts [])) (contacts [])).
  - reflexivity.
  - simpl. repeat constructor; intros Hin;
      repeat (apply elem_of_cons in Hin as [Hin|Hin]; [discriminate|]);
      by apply elem_of_nil in Hin.
  - reflexivity.
Defined.

(** The scenario of the specification: table "Contacts" with columns
    [Name : text] and [Active : boolean]; adding a row yields
    [{id: <generated>, Name: "", Active: false}]. *)
Example handleRowAdd_scenario :
  rows <$> activeTable
    (run (handleRowAdd all_succeed 1700000000000 "user_1" (Some (contacts [])))
       (showing (contacts [])))
  = Some [ {[ "id" := VString "row_1700000000000";
              "Name" := VString ""; "Active" := VBool false ]} ].
Proof. by vm_compute. Qed.

(** ** Deleting rows from the grid *)

Lemma handleRowDelete_log remote_ok t rowId s :
  remote_log (run (handleRowDelete remote_ok (Some t) rowId) s)
  = remote_log s ++ [TableRowsDelete rowId].
Proof.
  unfold handleRowDelete. run_handler.
  by destruct (remote_ok (TableRowsDelete rowId)).
Qed.

(** X19: The [Delete (n)] button issues one remote delete per selected
    identifier, in the order of the selection, and empties the
    selection. *)
Lemma bulkDeleteClick_calls remote_ok g s t :
  activeTable s = Some t ->
  remote_log (snd (bulkDeleteClick remote_ok (g, s)))
  = remote_log s ++ (TableRowsDelete <$> selectedRows g) /\
  selectedRows (fst (bulkDeleteClick remote_ok (g, s))) = [].
Proof.
  intros Hactive. unfold bulkDeleteClick, onRowDelete. cbn [fst snd].
  split; [|done]. rewrite Hactive. clear Hactive.
  generalize (selectedRows g) as ids. intros ids.
  induction ids as [|id ids IH] using rev_ind.
  - cbn [foldl fmap list_fmap]. by rewrite app_nil_r.
  - rewrite foldl_app. cbn [foldl]. rewrite handleRowDelete_log, IH.
    by rewrite fmap_app, app_assoc.
Qed.

(** The trash button of a row never touches the selection. *)
Lemma rowDeleteClick_selection remote_ok row g s :
  selectedRows (fst (rowDeleteClick remote_ok row (g, s))) = selectedRows g.
Proof. done. Qed.

(** C6, at a failing input: the only row of the table is selected and its
    trash button is clicked. The remote delete is issued and the row
    leaves the table, but its identifier is still in the selection. *)
Theorem rowDeleteClick_keeps_deleted_row_selected :
  let row := contactRow "row_1" "Ada" true in
  let g := setSelectedRows [VString "row_1"] initialGrid in
  let result := rowDeleteClick all_succeed row (g, showing (contacts [row])) in
  remote_log (snd result) = [TableRowsDelete (VString "row_1")] /\
  rows <$> activeTable (snd result) = Some [] /\
  selectedRows (fst result) = [VString "row_1"] /\
  Set_has (VString "row_1") (selectedRows (fst result)) = true.
Proof. by vm_compute. Qed.

(** Every handler started by the [Delete (n)] button filters the rows of
    the render it was started in, and the last one to settle sets the
    state: of two selected rows, both deleted remotely, one is still in
    the local table. *)
Example bulkDeleteClick_stale_rows :
  let r1 := contactRow "row_1" "Ada" true in
  let r2 := contactRow "row_2" "Bob" false in
  let g := setSelectedRows [VString "row_1"; VString "row_2"] initialGrid in
  let result := bulkDeleteClick all_succeed (g, showing (contacts [r1; r2])) in
  remote_log (snd result)
    = [TableRowsDelete (VString "row_1"); TableRowsDelete (VString "row_2")] /\
  rows <$> activeTable (snd result) = Some [r1] /\
  selectedRows (fst result) = [].
Proof. by vm_compute. Qed.

(** * Further properties of the code *)

(** ** Sorting without a column, and in the other direction *)

Lemma array_sort_all_equal {A} (cmp : A -> A -> Z) l :
  (forall x y, cmp x y <= 0) -> array_sort cmp l = l.
Proof.
  intros Hcmp. apply array_sort_fixed.
  induction l as [|x l IH]; constructor; [done|].
  destruct l; constructor. apply Hcmp.
Qed.

(** X2: Before any header is clicked, and for a column whose identifier is
    the empty string, the rows are shown in the order of the table. *)
Theorem sortedRows_without_column g rows :
  sortColumn g = None \/ sortColumn g = Some "" ->
  sortedRows g rows = rows.
Proof.
  intros Hg. unfold sortedRows. apply array_sort_all_equal.
  intros x y. destruct Hg as [-> | ->]; done.
Qed.

Lemma sortedRows_without_column_witness :
  sortedRows initialGrid rows_5_3 = rows_5_3.
Proof.
  apply (sortedRows_without_column initialGrid rows_5_3). left. reflexivity.
Defined.

Lemma in_order_flip col d a b :
  in_order col (flip_direction d) a b <-> in_order col d b a.
Proof. by destruct d. Qed.

Lemma StronglySorted_reverse {A} (R : A -> A -> Prop) l :
  StronglySorted R l -> StronglySorted (fun x y => R y x) (reverse l).
Proof.
  induction 1 as [|x l Hl IH Hall]; [constructor|].
  rewrite reverse_cons. apply StronglySorted_app_2; [|done|repeat constructor].
  intros y z Hy Hz. apply list_elem_of_singleton in Hz as ->.
  rewrite Forall_forall in Hall. apply Hall. by apply elem_of_reverse.
Qed.

Lemma NoDup_fmap_eq {A B} (f : A -> B) l x y :
  NoDup (f <$> l) -> x ∈ l -> y ∈ l -> f x = f y -> x = y.
Proof.
  induction l as [|z l IH]; intros Hnd Hx Hy Hf; [by apply elem_of_nil in Hx|].
  rewrite fmap_cons in Hnd. apply NoDup_cons in Hnd as [Hz Hnd].
  apply elem_of_cons in Hx as [->|Hx], Hy as [->|Hy]; [done|..|by apply IH].
  - exfalso. apply Hz. rewrite Hf. by apply list_elem_of_fmap_2.
  - exfalso. apply Hz. rewrite <- Hf. by apply list_elem_of_fmap_2.
Qed.

Lemma in_order_antisym col d rows a b :
  homogeneous col rows -> a ∈ rows -> b ∈ rows ->
  in_order col d a b -> in_order col d b a -> get a col = get b col.
Proof.
  intros [Hnum|Hstr] Ha Hb; rewrite Forall_forall in *.
  - destruct (Hnum a Ha) as [n Hn], (Hnum b Hb) as [m Hm].
    unfold in_order. rewrite Hn, Hm. destruct d; simpl; rewrite !Z.ltb_ge;
      intros; f_equal; lia.
  - destruct (Hstr a Ha) as [s Hs], (Hstr b Hb) as [t Ht].
    unfold in_order. rewrite Hs, Ht.
    assert (String.ltb s t = false -> String.ltb t s = false -> VString s = VString t)
      as Heq.
    { intros Hst Hts. f_equal.
      destruct (String_lt_trichotomy s t) as [Hlt|[->|Hlt]]; [|done|];
        apply String_ltb_lt in Hlt; congruence. }
    destruct d; simpl; eauto.
Qed.

Lemma sortedRows_StronglySorted g col rows :
  sortColumn g = Some col -> col <> "" -> homogeneous col rows ->
  StronglySorted (in_order col (sortDirection g)) (sortedRows g rows).
Proof.
  intros Hg Hcol Hhom. unfold sortedRows. rewrite Hg.
  apply (StronglySorted_iff (cmp_le (compareRows (Some col) (sortDirection g))));
    [intros; by apply compareRows_le|].
  destruct Hhom as [Hnum|Hstr].
  - apply (array_sort_StronglySorted _ (compareRows_antisym _ _)
             (fun r => is_number (get r col))); [|done].
    intros x y z Hx Hy Hz. rewrite !compareRows_le by done.
    by apply in_order_trans_numbers.
  - apply (array_sort_StronglySorted _ (compareRows_antisym _ _)
             (fun r => is_string (get r col))); [|done].
    intros x y z Hx Hy Hz. rewrite !compareRows_le by done.
    by apply in_order_trans_strings.
Qed.

Lemma handleSort_same_column g col :
  sortColumn g = Some col ->
  sortColumn (handleSort col g) = Some col /\
  sortDirection (handleSort col g) = flip_direction (sortDirection g).
Proof.
  intros Hg. unfold handleSort. rewrite bool_decide_eq_true_2 by done. simpl.
  split; [done|]. by destruct (sortDirection g).
Qed.

(** X3: When the sort column holds only numbers, or only strings, and no value
    twice, a second click on the header shows the rows in exactly the
    opposite order. *)
Theorem handleSort_reverses_order g col rows :
  sortColumn g = Some col -> col <> "" ->
  homogeneous col rows ->
  NoDup ((fun r => get r col) <$> rows) ->
  sortedRows (handleSort col g) rows = reverse (sortedRows g rows).
Proof.
  intros Hg Hcol Hhom Hnd.
  destruct (handleSort_same_column g col Hg) as [Hcol' Hdir'].
  pose proof (sortedRows_StronglySorted (handleSort col g) col rows Hcol' Hcol Hhom)
    as Hsorted1.
  pose proof (sortedRows_StronglySorted g col rows Hg Hcol Hhom) as Hsorted2.
  assert (forall g', sortedRows g' rows ≡ₚ rows) as Hperm
    by (intros; apply array_sort_perm).
  apply (StronglySorted_unique_strong (in_order col (sortDirection (handleSort col g)))).
  - intros a b Ha Hb Hab Hba.
    rewrite Hperm in Ha. rewrite reverse_Permutation, Hperm in Hb.
    apply (NoDup_fmap_eq (fun r => get r col) rows); [done..|].
    by eapply in_order_antisym.
  - done.
  - rewrite Hdir'. apply StronglySorted_reverse in Hsorted2.
    eapply StronglySorted_iff; [|exact Hsorted2].
    intros x y. simpl. by rewrite in_order_flip.
  - by rewrite reverse_Permutation, !Hperm.
Qed.

Lemma handleSort_reverses_order_witness :
  sortedRows (handleSort "A" (sortBy "A" asc)) rows_2_9_5
  = reverse (sortedRows (sortBy "A" asc) rows_2_9_5).
Proof.
  apply (handleSort_reverses_order (sortBy "A" asc) "A" rows_2_9_5).
  - reflexivity.
  - discriminate.
  - left. repeat constructor; by eexists.
  - vm_compute. repeat constructor; intros Hin;
      repeat (apply elem_of_cons in Hin as [Hin|Hin]; [discriminate|]);
      by apply elem_of_nil in Hin.
Defined.

(** ** What a handler leaves behind *)

Lemma handleCreateTable_run remote_ok (now : Z) isoNow user_id name cols s :
  let call := TablesCreate ("table_" +:+ pretty now) name cols user_id in
  let newTable :=
    {| tbl_id := "table_" +:+ pretty now; tbl_name := name; columns := cols;
       rows := []; createdAt := isoNow; updatedAt := isoNow; userId := user_id |} in
  run (handleCreateTable remote_ok now isoNow user_id name cols) s
  = if remote_ok call then
      {| tables := newTable :: tables s; activeTable := Some newTable;
         createTableOpen := createTableOpen s;
         toasts := toasts s ++ [success ("Table " +:+ dquote +:+ name +:+ dquote
                                         +:+ " created successfully")];
         console := console s; remote_log := remote_log s ++ [call] |}
    else rejected s [call] "Failed to create table:" "Failed to create table".
Proof.
  intros call newTable. unfold handleCreateTable. fold call. run_handler.
  by destruct (remote_ok call).
Qed.

Lemma handleColumnAdd_run remote_ok (now : Z) isoNow t s :
  let updatedColumns := columns t ++ [added_column t now] in
  let call := TablesUpdate (tbl_id t) updatedColumns isoNow in
  run (handleColumnAdd remote_ok now isoNow (Some t)) s
  = if remote_ok call
    then committed s [call] t (with_columns t updatedColumns)
           (Some "Column added successfully")
    else rejected s [call] "Failed to add column:" "Failed to add column".
Proof.
  intros updatedColumns call. unfold handleColumnAdd.
  fold (added_column t now). fold updatedColumns. fold call. run_handler.
  by destruct (remote_ok call).
Qed.

Lemma handleColumnUpdate_run remote_ok isoNow t columnId updates s :
  let updatedColumns := columns_after_update t columnId updates in
  let call := TablesUpdate (tbl_id t) updatedColumns isoNow in
  run (handleColumnUpdate remote_ok isoNow (Some t) columnId updates) s
  = if remote_ok call
    then committed s [call] t (with_columns t updatedColumns) None
    else rejected s [call] "Failed to update column:" "Failed to update column".
Proof.
  intros updatedColumns call. unfold handleColumnUpdate.
  fold (columns_after_update t columnId updates). fold updatedColumns. fold call.
  run_handler. by destruct (remote_ok call).
Qed.

Lemma handleColumnDelete_run remote_ok isoNow t columnId s :
  let updatedColumns := filter (fun col => col_id col <> columnId) (columns t) in
  let updatedRows := map (fun row : Row => delete columnId row) (rows t) in
  let call := TablesUpdate (tbl_id t) updatedColumns isoNow in
  let rowCalls := map (fun row => TableRowsUpdate (row_id row) row) updatedRows in
  run (handleColumnDelete remote_ok isoNow (Some t) columnId) s
  = if remote_ok call then
      if forallb remote_ok rowCalls
      then committed s (call :: rowCalls) t
             (with_rows (with_columns t updatedColumns) updatedRows)
             (Some "Column deleted successfully")
      else rejected s (call :: rowCalls) "Failed to delete column:" "Failed to delete column"
    else rejected s [call] "Failed to delete column:" "Failed to delete column".
Proof.
  intros updatedColumns updatedRows call rowCalls. unfold handleColumnDelete.
  fold updatedColumns. fold updatedRows. fold call. fold rowCalls. run_handler.
  destruct (remote_ok call); simpl; [|done].
  destruct (forallb remote_ok rowCalls); simpl;
    unfold committed, rejected; simpl; f_equal; by rewrite <- app_assoc.
Qed.

Lemma handleRowAdd_run remote_ok (now : Z) user_id t s :
  let rowId := "row_" +:+ pretty now in
  let newRowData := fill_defaults (columns t) {[ "id" := VString rowId ]} in
  let call := TableRowsCreate rowId (tbl_id t) newRowData user_id in
  run (handleRowAdd remote_ok now user_id (Some t)) s
  = if remote_ok call
    then committed s [call] t (with_rows t (rows t ++ [newRowData]))
           (Some "Row added successfully")
    else rejected s [call] "Failed to add row:" "Failed to add row".
Proof.
  intros rowId newRowData call. unfold handleRowAdd.
  fold rowId. fold newRowData. fold call. run_handler.
  by destruct (remote_ok call).
Qed.

Lemma handleRowUpdate_run remote_ok t rowId columnId value s :
  let updatedRows := rows_after_update t rowId columnId value in
  run (handleRowUpdate remote_ok (Some t) rowId columnId value) s
  = match List.find (fun r => strict_eq (row_id r) rowId) updatedRows with
    | Some updatedRow =>
        if remote_ok (TableRowsUpdate rowId updatedRow)
        then committed s [TableRowsUpdate rowId updatedRow] t
               (with_rows t updatedRows) None
        else rejected s [TableRowsUpdate rowId updatedRow]
               "Failed to update row:" "Failed to update row"
    | None => s
    end.
Proof.
  intros updatedRows. unfold handleRowUpdate.
  fold (rows_after_update t rowId columnId value). fold updatedRows.
  destruct (List.find _ updatedRows) as [updatedRow|]; run_handler; [|done].
  by destruct (remote_ok (TableRowsUpdate rowId updatedRow)).
Qed.

Lemma handleRowDelete_run remote_ok t rowId s :
  run (handleRowDelete remote_ok (Some t) rowId) s
  = if remote_ok (TableRowsDelete rowId)
    then committed s [TableRowsDelete rowId] t
           (with_rows t (filter (fun row => row_id row <> rowId) (rows t)))
           (Some "Row deleted successfully")
    else rejected s [TableRowsDelete rowId] "Failed to delete row:" "Failed to delete row".
Proof.
  unfold handleRowDelete. run_handler.
  by destruct (remote_ok (TableRowsDelete rowId)).
Qed.

Lemma handleTableSelect_run tables0 tableId s :
  run (handleTableSelect tables0 tableId) s
  = match List.find (fun t => String.eqb (tbl_id t) tableId) tables0 with
    | Some table => run (setActiveTable (Some table)) s
    | None => s
    end.
Proof. unfold handleTableSelect. by destruct (List.find _ tables0). Qed.

(** ** Editing and deleting rows *)

Lemma find_all_false {A} (f : A -> bool) (l : list A) :
  (forall x, x ∈ l -> f x = false) -> List.find f l = None.
Proof.
  induction l as [|x l IH]; intros Hf; simpl; [done|].
  rewrite (Hf x) by left. apply IH. intros y Hy. apply Hf. by right.
Qed.

Lemma filter_all {A} (P : A -> Prop) `{!forall x, Decision (P x)} (l : list A) :
  (forall x, x ∈ l -> P x) -> filter P l = l.
Proof.
  induction l as [|x l IH]; intros HP; [done|].
  rewrite filter_cons_True by (apply HP; left).
  f_equal. apply IH. intros y Hy. apply HP. by right.
Qed.

Lemma rows_after_update_lookup t rowId columnId value i :
  rows_after_update t rowId columnId value !! i
  = (fun row : Row => if strict_eq (row_id row) rowId
                      then <[columnId := value]> row else row) <$> rows t !! i.
Proof. unfold rows_after_update. apply (list_lookup_fmap _ (rows t) i). Qed.

(** X4: A successful [handleRowUpdate] on a column key other than [id] writes
    the value into the rows that bear the identifier, and only there: the
    other keys of those rows, the other rows, the number and order of the
    rows and the columns are as before. Success is silent: no
    notification. *)
Theorem handleRowUpdate_commits remote_ok s t rowId columnId value :
  activeTable s = Some t ->
  columnId <> "id" ->
  (exists r, r ∈ rows t /\ row_id r = rowId) ->
  (forall data, remote_ok (TableRowsUpdate rowId data) = true) ->
  let s' := run (handleRowUpdate remote_ok (activeTable s) rowId columnId value) s in
  exists t',
    activeTable s' = Some t' /\
    columns t' = columns t /\
    toasts s' = toasts s /\
    length (rows t') = length (rows t) /\
    forall i r, rows t !! i = Some r ->
      exists r', rows t' !! i = Some r' /\
        (row_id r = rowId ->
           r' !! columnId = Some value /\ forall k, k <> columnId -> r' !! k = r !! k) /\
        (row_id r <> rowId -> r' = r).
Proof.
  intros Hactive Hcol (r0 & Hr0 & Hid0) Hok s'. subst s'.
  rewrite Hactive, handleRowUpdate_run.
  destruct (find_is_Some (fun r => strict_eq (row_id r) rowId)
              (rows_after_update t rowId columnId value) (<[columnId := value]> r0))
    as [updatedRow ->].
  { unfold rows_after_update. apply list_elem_of_In, in_map_iff. exists r0.
    split; [|by apply list_elem_of_In].
    unfold strict_eq. by rewrite bool_decide_eq_true_2. }
  { unfold strict_eq. rewrite row_id_insert_ne by done. by apply bool_decide_eq_true_2. }
  rewrite Hok. eexists. split; [reflexivity|]. simpl.
  split; [done|]. split; [done|]. split; [apply length_map|].
  intros i r Hi. rewrite rows_after_update_lookup, Hi. simpl.
  eexists. split; [reflexivity|]. unfold strict_eq. split.
  - intros Hid. rewrite bool_decide_eq_true_2 by done.
    split; [apply lookup_insert_eq|]. intros k Hk. by apply lookup_insert_ne.
  - intros Hid. by rewrite bool_decide_eq_false_2.
Qed.

Lemma handleRowUpdate_commits_witness :
  let s := showing (table_A rows_5_3) in
  let s' := run (handleRowUpdate all_succeed (activeTable s) (VString "row1") "A"
                   (VNumber 10)) s in
  exists t',
    activeTable s' = Some t' /\
    columns t' = columns (table_A rows_5_3) /\
    toasts s' = toasts s /\
    length (rows t') = length (rows (table_A rows_5_3)) /\
    forall i r, rows (table_A rows_5_3) !! i = Some r ->
      exists r', rows t' !! i = Some r' /\
        (row_id r = VString "row1" ->
           r' !! "A" = Some (VNumber 10) /\ forall k, k <> "A" -> r' !! k = r !! k) /\
        (row_id r <> VString "row1" -> r' = r).
Proof.
  apply (handleRowUpdate_commits all_succeed (showing (table_A rows_5_3))
           (table_A rows_5_3) (VString "row1") "A" (VNumber 10)).
  - reflexivity.
  - discriminate.
  - exists {[ "id" := VString "row1"; "A" := VNumber 5; "B" := VString "x" ]}.
    split; [|by vm_compute]. simpl. unfold rows_5_3. set_solver.
  - reflexivity.
Defined.

(** X5: [handleRowUpdate] for an identifier that no row of the active table
    bears does nothing at all: no remote call, no notification, no change
    of state. *)
Theorem handleRowUpdate_unknown_row remote_ok s t rowId columnId value :
  activeTable s = Some t ->
  (forall r, r ∈ rows t -> row_id r <> rowId) ->
  run (handleRowUpdate remote_ok (activeTable s) rowId columnId value) s = s.
Proof.
  intros Hactive Hnone. rewrite Hactive, handleRowUpdate_run.
  rewrite find_all_false; [done|].
  intros r Hr. unfold rows_after_update in Hr.
  apply list_elem_of_In, in_map_iff in Hr as (r0 & <- & Hr0).
  apply list_elem_of_In in Hr0. unfold strict_eq at 2.
  rewrite bool_decide_eq_false_2 by auto.
  unfold strict_eq. apply bool_decide_eq_false_2. auto.
Qed.

Lemma handleRowUpdate_unknown_row_witness :
  let s := showing (table_A rows_5_3) in
  run (handleRowUpdate all_succeed (activeTable s) (VString "row9") "A" (VNumber 10)) s = s.
Proof.
  apply (handleRowUpdate_unknown_row all_succeed (showing (table_A rows_5_3))
           (table_A rows_5_3) (VString "row9") "A" (VNumber 10)).
  - reflexivity.
  - intros r Hr. simpl in Hr. unfold rows_5_3 in Hr.
    repeat (apply elem_of_cons in Hr as [->|Hr]; [by vm_compute|]).
    by apply elem_of_nil in Hr.
Defined.

(** X6: A successful [handleRowDelete] keeps exactly the rows with another
    identifier, in their order, and the columns; for an identifier that no
    row bears the rows are all kept, although the remote delete is issued
    and success is notified. *)
Theorem handleRowDelete_removes remote_ok s t rowId :
  activeTable s = Some t ->
  remote_ok (TableRowsDelete rowId) = true ->
  let s' := run (handleRowDelete remote_ok (activeTable s) rowId) s in
  exists t',
    activeTable s' = Some t' /\
    columns t' = columns t /\
    (forall r, r ∈ rows t' <-> r ∈ rows t /\ row_id r <> rowId) /\
    rows t' `sublist_of` rows t /\
    ((forall r, r ∈ rows t -> row_id r <> rowId) -> rows t' = rows t) /\
    remote_log s' = remote_log s ++ [TableRowsDelete rowId] /\
    toasts s' = toasts s ++ [success "Row deleted successfully"].
Proof.
  intros Hactive Hok s'. subst s'. rewrite Hactive, handleRowDelete_run, Hok.
  eexists. split; [reflexivity|]. simpl.
  split; [done|]. split; [|split; [|split; [|done]]].
  - intros r. rewrite list_elem_of_filter. tauto.
  - apply sublist_filter.
  - intros Hnone. by apply filter_all.
Qed.

Lemma handleRowDelete_removes_witness :
  let t := contacts [contactRow "row_1" "Ada" true; contactRow "row_2" "Bob" false] in
  let s' := run (handleRowDelete all_succeed (Some t) (VString "row_1")) (showing t) in
  exists t',
    activeTable s' = Some t' /\
    columns t' = columns t /\
    (forall r, r ∈ rows t' <-> r ∈ rows t /\ row_id r <> VString "row_1") /\
    rows t' `sublist_of` rows t /\
    ((forall r, r ∈ rows t -> row_id r <> VString "row_1") -> rows t' = rows t) /\
    remote_log s' = [TableRowsDelete (VString "row_1")] /\
    toasts s' = [success "Row deleted successfully"].
Proof.
  apply (handleRowDelete_removes all_succeed
           (showing (contacts [contactRow "row_1" "Ada" true;
                               contactRow "row_2" "Bob" false]))
           (contacts [contactRow "row_1" "Ada" true; contactRow "row_2" "Bob" false])
           (VString "row_1")).
  - reflexivity.
  - reflexivity.
Defined.

(** ** Columns *)

Lemma columns_after_update_lookup t columnId updates i :
  columns_after_update t columnId updates !! i
  = (fun col => if String.eqb (col_id col) columnId
                then merge_column col updates else col) <$> columns t !! i.
Proof. unfold columns_after_update. apply (list_lookup_fmap _ (columns t) i). Qed.

(** X7: Renaming a column from its header: when the remote write succeeds,
    the columns with that identifier get the new name and nothing else
    changes: every column keeps its position, identifier, type, options,
    required flag and width, the other columns keep their name, and the
    rows are untouched. *)
Theorem handleColumnUpdate_renames remote_ok isoNow s t columnId name :
  activeTable s = Some t ->
  (forall cols, remote_ok (TablesUpdate (tbl_id t) cols isoNow) = true) ->
  let s' := run (handleColumnUpdate remote_ok isoNow (activeTable s) columnId
                   (rename_to name)) s in
  exists t',
    activeTable s' = Some t' /\
    rows t' = rows t /\
    length (columns t') = length (columns t) /\
    forall i c, columns t !! i = Some c ->
      exists c', columns t' !! i = Some c' /\
        col_id c' = col_id c /\ col_type c' = col_type c /\
        col_options c' = col_options c /\ col_required c' = col_required c /\
        col_width c' = col_width c /\
        col_name c' = (if decide (col_id c = columnId) then name else col_name c).
Proof.
  intros Hactive Hok s'. subst s'. rewrite Hactive, handleColumnUpdate_run, Hok.
  eexists. split; [reflexivity|]. simpl.
  split; [done|]. split; [apply length_map|].
  intros i c Hi. rewrite columns_after_update_lookup, Hi. simpl.
  eexists. split; [reflexivity|].
  destruct (decide (col_id c = columnId)) as [Heq|Hne].
  - apply String.eqb_eq in Heq. by rewrite Heq.
  - apply String.eqb_neq in Hne. by rewrite Hne.
Qed.

Lemma handleColumnUpdate_renames_witness :
  let t := contacts [contactRow "row_1" "Ada" true] in
  let s' := run (handleColumnUpdate all_succeed "2023-11-14T22:13:20.000Z" (Some t)
                   "Name" (rename_to "Full name")) (showing t) in
  exists t',
    activeTable s' = Some t' /\
    rows t' = rows t /\
    length (columns t') = length (columns t) /\
    forall i c, columns t !! i = Some c ->
      exists c', columns t' !! i = Some c' /\
        col_id c' = col_id c /\ col_type c' = col_type c /\
        col_options c' = col_options c /\ col_required c' = col_required c /\
        col_width c' = col_width c /\
        col_name c' = (if decide (col_id c = "Name") then "Full name" else col_name c).
Proof.
  apply (handleColumnUpdate_renames all_succeed "2023-11-14T22:13:20.000Z"
           (showing (contacts [contactRow "row_1" "Ada" true]))
           (contacts [contactRow "row_1" "Ada" true]) "Name" "Full name").
  - reflexivity.
  - reflexivity.
Defined.

(** X8: A column delete whose table write succeeds and one of whose row
    writes is rejected leaves the local table as it was, column and
    values included, although the shortened column list and every
    stripped row have been sent to the remote store. *)
Theorem handleColumnDelete_partial_failure remote_ok isoNow s t colId :
  activeTable s = Some t ->
  (forall cols, remote_ok (TablesUpdate (tbl_id t) cols isoNow) = true) ->
  (exists r, r ∈ rows t /\
     remote_ok (TableRowsUpdate (row_id (delete colId r)) (delete colId r)) = false) ->
  let s' := run (handleColumnDelete remote_ok isoNow (activeTable s) colId) s in
  tables s' = tables s /\
  activeTable s' = Some t /\
  toasts s' = toasts s ++ [failure "Failed to delete column"] /\
  remote_log s'
  = remote_log s
    ++ TablesUpdate (tbl_id t) (filter (fun c => col_id c <> colId) (columns t)) isoNow
    :: ((fun r : Row => TableRowsUpdate (row_id (delete colId r)) (delete colId r))
          <$> rows t).
Proof.
  intros Hactive Hok (r & Hr & Hfail) s'. subst s'.
  rewrite Hactive, handleColumnDelete_run, Hok.
  destruct (forallb remote_ok _) eqn:Hall.
  - exfalso. rewrite forallb_forall in Hall.
    rewrite Hall in Hfail; [done|].
    apply in_map_iff. eexists. split; [reflexivity|].
    apply in_map_iff. exists r. split; [done|]. by apply list_elem_of_In.
  - simpl. repeat split; try done.
    do 2 f_equal. change (map ?f ?l) with (f <$> l).
    by rewrite <- list_fmap_compose.
Qed.

Lemma handleColumnDelete_partial_failure_witness :
  let t := contacts [contactRow "row_1" "Ada" true; contactRow "row_2" "Bob" false] in
  let remote_ok := fun c => match c with
                            | TableRowsUpdate (VString "row_2") _ => false
                            | _ => true
                            end in
  let s' := run (handleColumnDelete remote_ok "2023-11-14T22:13:20.000Z"
                   (Some t) "Active") (showing t) in
  tables s' = [t] /\
  activeTable s' = Some t /\
  toasts s' = [failure "Failed to delete column"] /\
  remote_log s'
  = TablesUpdate (tbl_id t) (filter (fun c => col_id c <> "Active") (columns t))
      "2023-11-14T22:13:20.000Z"
    :: ((fun r : Row => TableRowsUpdate (row_id (delete "Active" r)) (delete "Active" r))
          <$> rows t).
Proof.
  apply (handleColumnDelete_partial_failure
           (fun c => match c with
                     | TableRowsUpdate (VString "row_2") _ => false
                     | _ => true
                     end)
           "2023-11-14T22:13:20.000Z"
           (showing (contacts [contactRow "row_1" "Ada" true;
                               contactRow "row_2" "Bob" false]))
           (contacts [contactRow "row_1" "Ada" true; contactRow "row_2" "Bob" false])
           "Active").
  - reflexivity.
  - reflexivity.
  - exists (contactRow "row_2" "Bob" false). split; [|by vm_compute].
    simpl. set_solver.
Defined.

(** ** Sessions of actions *)

(** X9: When the remote store rejects every call, no mutation changes the
    table list or the active table, whatever the action and its
    arguments; the only trace for the user is at most one failure
    notification. *)
Theorem step_rejected_keeps_state e a s :
  (forall c, env_remote_ok e c = false) ->
  (forall id, a <> TableSelect id) ->
  tables (step e a s) = tables s /\
  activeTable (step e a s) = activeTable s /\
  (toasts (step e a s) = toasts s \/
   exists msg, toasts (step e a s) = toasts s ++ [failure msg]).
Proof.
  intros Hfail Hselect.
  destruct a as [name cols|id| |cid u|cid| |rid cid v|rid]; simpl.
  - rewrite handleCreateTable_run, Hfail. simpl. eauto.
  - by destruct (Hselect id).
  - destruct (activeTable s) as [t|] eqn:Hactive; [|by eauto].
    rewrite handleColumnAdd_run, Hfail. simpl. eauto.
  - destruct (activeTable s) as [t|] eqn:Hactive; [|by eauto].
    rewrite handleColumnUpdate_run, Hfail. simpl. eauto.
  - destruct (activeTable s) as [t|] eqn:Hactive; [|by eauto].
    rewrite handleColumnDelete_run, Hfail. simpl. eauto.
  - destruct (activeTable s) as [t|] eqn:Hactive; [|by eauto].
    rewrite handleRowAdd_run, Hfail. simpl. eauto.
  - destruct (activeTable s) as [t|] eqn:Hactive; [|by eauto].
    rewrite handleRowUpdate_run.
    destruct (List.find _ _); [|by eauto].
    rewrite Hfail. simpl. eauto.
  - destruct (activeTable s) as [t|] eqn:Hactive; [|by eauto].
    rewrite handleRowDelete_run, Hfail. simpl. eauto.
Qed.

Lemma step_rejected_keeps_state_witness :
  let t := contacts [contactRow "row_1" "Ada" true] in
  let s' := step (rejecting 1700000000000) (ColumnDelete "Active") (showing t) in
  tables s' = [t] /\
  activeTable s' = Some t /\
  (toasts s' = [] \/ exists msg, toasts s' = [] ++ [failure msg]).
Proof.
  apply (step_rejected_keeps_state (rejecting 1700000000000) (ColumnDelete "Active")
           (showing (contacts [contactRow "row_1" "Ada" true]))).
  - reflexivity.
  - discriminate.
Defined.

Lemma find_first {A} (f : A -> bool) (l : list A) i x :
  l !! i = Some x -> f x = true ->
  (forall j y, (j < i)%nat -> l !! j = Some y -> f y = false) ->
  List.find f l = Some x.
Proof.
  revert i. induction l as [|z l IH]; intros i Hi Hx Hbefore; [done|].
  destruct i as [|i]; simpl in *.
  - injection Hi as ->. by rewrite Hx.
  - rewrite (Hbefore 0%nat z) by (done || lia).
    apply (IH i); [done..|]. intros j y Hj Hy. apply (Hbefore (S j) y); [lia|done].
Qed.

(** X10: Selecting a table from the list makes active the first table of the
    list with that identifier: the one at the least position, also when a
    later table has the same identifier. An identifier that is not in the
    list changes nothing. No remote call is made, nothing is notified and
    the list is left as it is. *)
Theorem handleTableSelect_activates s tableId :
  let s' := run (handleTableSelect (tables s) tableId) s in
  (forall i t,
     tables s !! i = Some t -> tbl_id t = tableId ->
     (forall j t0, (j < i)%nat -> tables s !! j = Some t0 -> tbl_id t0 <> tableId) ->
     activeTable s' = Some t) /\
  ((forall t, t ∈ tables s -> tbl_id t <> tableId) -> s' = s) /\
  tables s' = tables s /\ toasts s' = toasts s /\ remote_log s' = remote_log s.
Proof.
  intros s'. subst s'. rewrite handleTableSelect_run. split; [|split].
  - intros i t Hi Hid Hbefore.
    rewrite (find_first _ _ i t); [done..| |].
    + by apply String.eqb_eq.
    + intros j t0 Hj Ht0. apply String.eqb_neq. by eapply Hbefore.
  - intros Hnone. rewrite find_all_false; [done|].
    intros t Ht. apply String.eqb_neq. by apply Hnone.
  - by destruct (List.find _ (tables s)).
Qed.

Lemma handleTableSelect_activates_witness :
  let s := {| tables := [table_A rows_5_3; contacts []; table_A []];
              activeTable := Some (contacts []); createTableOpen := false;
              toasts := []; console := []; remote_log := [] |} in
  activeTable (run (handleTableSelect (tables s) "table_1") s) = Some (table_A rows_5_3).
Proof.
  destruct (handleTableSelect_activates
              {| tables := [table_A rows_5_3; contacts []; table_A []];
                 activeTable := Some (contacts []); createTableOpen := false;
                 toasts := []; console := []; remote_log := [] |} "table_1")
    as [Hfirst _].
  apply (Hfirst 0%nat (table_A rows_5_3)).
  - reflexivity.
  - reflexivity.
  - intros j t0 Hj. lia.
Defined.

Lemma replace_table_lookup t u l i :
  replace_table t u l !! i
  = (fun x => if decide (tbl_id x = tbl_id t) then u else x) <$> l !! i.
Proof.
  unfold replace_table. change (map ?f ?l) with (f <$> l).
  rewrite list_lookup_fmap. destruct (l !! i) as [x|]; [|done]. simpl. f_equal.
  destruct (decide (tbl_id x = tbl_id t)) as [Heq|Hne].
  - apply String.eqb_eq in Heq. by rewrite Heq.
  - apply String.eqb_neq in Hne. by rewrite Hne.
Qed.

Lemma committed_syncs s calls t u msg :
  length (tables (committed s calls t u msg)) = length (tables s) /\
  forall i x, tables s !! i = Some x ->
    tables (committed s calls t u msg) !! i
    = Some (if decide (tbl_id x = tbl_id t) then u else x).
Proof.
  simpl. split; [apply length_map|].
  intros i x Hi. by rewrite replace_table_lookup, Hi.
Qed.

(** X11: The update a column or row handler makes to the table list goes by
    identifier. Either the handler changes neither the list nor the
    active table, or it makes active a table with the identifier of the
    previous one and puts that table at every position of the list that
    held a table with this identifier, leaving every other position as
    it was. *)
Theorem step_syncs_table_list e a s t :
  activeTable s = Some t ->
  (forall name cols, a <> CreateTable name cols) ->
  (forall id, a <> TableSelect id) ->
  let s' := step e a s in
  (tables s' = tables s /\ activeTable s' = Some t) \/
  (exists u,
     activeTable s' = Some u /\
     tbl_id u = tbl_id t /\
     length (tables s') = length (tables s) /\
     forall i x, tables s !! i = Some x ->
       tables s' !! i = Some (if decide (tbl_id x = tbl_id t) then u else x)).
Proof.
  intros Hactive Hcreate Hselect s'. subst s'.
  destruct a as [name cols|id| |cid u|cid| |rid cid v|rid]; simpl; rewrite ?Hactive.
  - by destruct (Hcreate name cols).
  - by destruct (Hselect id).
  - rewrite handleColumnAdd_run. destruct (env_remote_ok e _); [right|by left].
    eexists. split; [reflexivity|]. split; [done|]. apply committed_syncs.
  - rewrite handleColumnUpdate_run. destruct (env_remote_ok e _); [right|by left].
    eexists. split; [reflexivity|]. split; [done|]. apply committed_syncs.
  - rewrite handleColumnDelete_run. destruct (env_remote_ok e _); [|by left].
    destruct (forallb _ _); [right|by left].
    eexists. split; [reflexivity|]. split; [done|]. apply committed_syncs.
  - rewrite handleRowAdd_run. destruct (env_remote_ok e _); [right|by left].
    eexists. split; [reflexivity|]. split; [done|]. apply committed_syncs.
  - rewrite handleRowUpdate_run. destruct (List.find _ _); [|by left].
    destruct (env_remote_ok e _); [right|by left].
    eexists. split; [reflexivity|]. split; [done|]. apply committed_syncs.
  - rewrite handleRowDelete_run. destruct (env_remote_ok e _); [right|by left].
    eexists. split; [reflexivity|]. split; [done|]. apply committed_syncs.
Qed.

Lemma step_syncs_table_list_witness :
  let t := contacts [contactRow "row_1" "Ada" true] in
  let s := {| tables := [table_A rows_5_3; t]; activeTable := Some t;
              createTableOpen := false; toasts := []; console := [];
              remote_log := [] |} in
  let s' := step (accepting 1700000000000) (RowDelete (VString "row_1")) s in
  (tables s' = tables s /\ activeTable s' = Some t) \/
  (exists u,
     activeTable s' = Some u /\
     tbl_id u = tbl_id t /\
     length (tables s') = length (tables s) /\
     forall i x, tables s !! i = Some x ->
       tables s' !! i = Some (if decide (tbl_id x = tbl_id t) then u else x)).
Proof.
  apply (step_syncs_table_list (accepting 1700000000000) (RowDelete (VString "row_1"))
           {| tables := [table_A rows_5_3; contacts [contactRow "row_1" "Ada" true]];
              activeTable := Some (contacts [contactRow "row_1" "Ada" true]);
              createTableOpen := false; toasts := []; console := [];
              remote_log := [] |}
           (contacts [contactRow "row_1" "Ada" true])).
  - reflexivity.
  - discriminate.
  - discriminate.
Defined.

Lemma replace_table_ids t u l :
  tbl_id u = tbl_id t -> tbl_id <$> replace_table t u l = tbl_id <$> l.
Proof.
  intros Hid. unfold replace_table. induction l as [|x l IH]; [done|].
  cbn [map]. rewrite !fmap_cons. f_equal; [|done].
  destruct (String.eqb (tbl_id x) (tbl_id t)) eqn:Heq; [|done].
  apply String.eqb_eq in Heq. congruence.
Qed.

(** X12: No action but a successful creation adds, removes, reorders or
    re-identifies a table: the identifiers of the table list stay as they
    are; a creation puts one identifier in front, or none when it is
    rejected. *)
Theorem step_table_ids e a s :
  let ids := tbl_id <$> tables s in
  let ids' := tbl_id <$> tables (step e a s) in
  match a with
  | CreateTable name cols =>
      ids' = (if env_remote_ok e (TablesCreate ("table_" +:+ pretty (env_now e)) name cols
                                    (env_user e))
              then ("table_" +:+ pretty (env_now e)) :: ids else ids)
  | _ => ids' = ids
  end.
Proof.
  destruct a as [name cols|id| |cid u|cid| |rid cid v|rid]; simpl.
  - rewrite handleCreateTable_run. by destruct (env_remote_ok e _).
  - rewrite handleTableSelect_run. by destruct (List.find _ (tables s)).
  - destruct (activeTable s) as [t|] eqn:Hactive; [|done].
    rewrite handleColumnAdd_run.
    destruct (env_remote_ok e _); simpl; [by apply replace_table_ids|done].
  - destruct (activeTable s) as [t|] eqn:Hactive; [|done].
    rewrite handleColumnUpdate_run.
    destruct (env_remote_ok e _); simpl; [by apply replace_table_ids|done].
  - destruct (activeTable s) as [t|] eqn:Hactive; [|done].
    rewrite handleColumnDelete_run.
    destruct (env_remote_ok e _); [|done].
    destruct (forallb _ _); simpl; [by apply replace_table_ids|done].
  - destruct (activeTable s) as [t|] eqn:Hactive; [|done].
    rewrite handleRowAdd_run.
    destruct (env_remote_ok e _); simpl; [by apply replace_table_ids|done].
  - destruct (activeTable s) as [t|] eqn:Hactive; [|done].
    rewrite handleRowUpdate_run. destruct (List.find _ _); [|done].
    destruct (env_remote_ok e _); simpl; [by apply replace_table_ids|done].
  - destruct (activeTable s) as [t|] eqn:Hactive; [|done].
    rewrite handleRowDelete_run.
    destruct (env_remote_ok e _); simpl; [by apply replace_table_ids|done].
Qed.

Lemma with_rows_same t rs : with_rows (with_rows t rs) (rows t) = t.
Proof. by destruct t. Qed.

(** X13: Adding a row and then deleting the row with the generated identifier
    gives back the active table as it was, provided that no row bore that
    identifier and that no column is called [id] (a column of that name
    would overwrite the identifier of the new row). *)
Theorem row_add_then_delete remote_ok (now : Z) user_id s t :
  activeTable s = Some t ->
  "id" ∉ col_id <$> columns t ->
  (forall r, r ∈ rows t -> row_id r <> VString ("row_" +:+ pretty now)) ->
  (forall c, remote_ok c = true) ->
  let s1 := run (handleRowAdd remote_ok now user_id (activeTable s)) s in
  let s2 := run (handleRowDelete remote_ok (activeTable s1)
                   (VString ("row_" +:+ pretty now))) s1 in
  activeTable s2 = Some t.
Proof.
  intros Hactive Hid Hfresh Hok s1 s2. subst s1 s2.
  rewrite Hactive, handleRowAdd_run, Hok.
  match goal with
  | |- context [handleRowDelete _ (activeTable (committed ?s0 ?c ?t0 ?u ?m))] =>
      change (activeTable (committed s0 c t0 u m)) with (Some u)
  end.
  rewrite handleRowDelete_run, Hok. simpl. f_equal.
  rewrite filter_app, filter_all by done.
  rewrite filter_cons_False, filter_nil, app_nil_r; [apply with_rows_same|].
  intros Hne. apply Hne. unfold row_id, get.
  rewrite fill_defaults_other by done. by rewrite lookup_singleton_eq.
Qed.

Lemma row_add_then_delete_witness :
  let t := contacts [contactRow "row_1" "Ada" true] in
  let s1 := run (handleRowAdd all_succeed 1700000000000 "user_1" (Some t)) (showing t) in
  let s2 := run (handleRowDelete all_succeed (activeTable s1)
                   (VString "row_1700000000000")) s1 in
  activeTable s2 = Some t.
Proof.
  apply (row_add_then_delete all_succeed 1700000000000 "user_1"
           (showing (contacts [contactRow "row_1" "Ada" true]))
           (contacts [contactRow "row_1" "Ada" true])).
  - reflexivity.
  - simpl. intros Hin.
    repeat (apply elem_of_cons in Hin as [Hin|Hin]; [discriminate|]).
    by apply elem_of_nil in Hin.
  - intros r Hr. simpl in Hr. apply list_elem_of_singleton in Hr as ->. by vm_compute.
  - reflexivity.
Defined.

(** If a column is called [id], the new row reads its identifier from the
    column default: the generated identifier is sent to the remote store
    but is not the [id] of the row in the local table. *)
Example handleRowAdd_id_column :
  let idColumn :=
    {| col_id := "id"; col_name := "Id"; col_type := text;
       col_options := None; col_required := Some false; col_width := Some 200 |} in
  let t := with_columns (contacts []) [idColumn] in
  (map row_id <$> (rows <$> activeTable
     (run (handleRowAdd all_succeed 1700000000000 "user_1" (Some t)) (showing t))))
  = Some [VString ""].
Proof. by vm_compute. Qed.

(** ** The cell under edit *)

(** After a click on a cell, the cells in edit mode are exactly those of
    the clicked row identifier and column: a cell that was under edit
    before is back in display mode, its draft dropped without notice. *)
Theorem handleCellClick_single_editor g rowId columnId row column :
  isEditing (handleCellClick rowId columnId g) row column = true
  <-> row_id row = rowId /\ col_id column = columnId.
Proof.
  unfold isEditing, handleCellClick, strict_eq. simpl.
  rewrite andb_true_iff, bool_decide_eq_true, String.eqb_eq. intuition.
Qed.

(** X15: Leaving a cell closes the editor whether or not the value could be
    saved: after a rejected update no cell is in edit mode and the table
    still holds the old values, so the typed value is gone. *)
Theorem handleCellBlur_rejected_drops_edit remote_ok g s t rowId columnId value :
  activeTable s = Some t ->
  (forall data, remote_ok (TableRowsUpdate rowId data) = false) ->
  let result := handleCellBlur remote_ok rowId columnId value (g, s) in
  editingCell (fst result) = None /\
  (forall row column, isEditing (fst result) row column = false) /\
  activeTable (snd result) = Some t /\
  tables (snd result) = tables s.
Proof.
  intros Hactive Hfail result. subst result.
  unfold handleCellBlur, onCellEdit. cbn [fst snd].
  split; [done|]. split.
  { intros row column. unfold isEditing. simpl. apply andb_false_r. }
  rewrite Hactive, handleRowUpdate_run.
  destruct (List.find _ _); [|done]. by rewrite Hfail.
Qed.

Lemma handleCellBlur_rejected_drops_edit_witness :
  let g := handleCellClick (VString "row1") "A" initialGrid in
  let result := handleCellBlur all_fail (VString "row1") "A" (VNumber 10)
                  (g, showing (table_A rows_5_3)) in
  editingCell (fst result) = None /\
  (forall row column, isEditing (fst result) row column = false) /\
  activeTable (snd result) = Some (table_A rows_5_3) /\
  tables (snd result) = [table_A rows_5_3].
Proof.
  apply (handleCellBlur_rejected_drops_edit all_fail
           (handleCellClick (VString "row1") "A" initialGrid)
           (showing (table_A rows_5_3)) (table_A rows_5_3)
           (VString "row1") "A" (VNumber 10)).
  - reflexivity.
  - reflexivity.
Defined.

(** ** The selection *)

Lemma Set_has_true v s : Set_has v s = true <-> v ∈ s.
Proof. unfold Set_has. apply bool_decide_eq_true. Qed.

Lemma Set_add_elem v w s : w ∈ Set_add v s <-> w = v \/ w ∈ s.
Proof.
  unfold Set_add, Set_has. case_bool_decide as Hin.
  - split; [by right|]. intros [->|H]; done.
  - rewrite elem_of_app, list_elem_of_singleton. tauto.
Qed.

Lemma Set_add_NoDup v s : NoDup s -> NoDup (Set_add v s).
Proof.
  intros Hs. unfold Set_add, Set_has. case_bool_decide as Hin; [done|].
  apply NoDup_app. split; [done|]. split; [|apply NoDup_singleton].
  intros w Hw Hw'. apply list_elem_of_singleton in Hw' as ->. done.
Qed.

Lemma Set_add_all_elem items acc w :
  w ∈ foldl (fun s v => Set_add v s) acc items <-> w ∈ acc \/ w ∈ items.
Proof.
  revert acc. induction items as [|v items IH]; intros acc; simpl.
  - rewrite elem_of_nil. tauto.
  - rewrite IH, Set_add_elem, elem_of_cons. tauto.
Qed.

Lemma Set_add_all_NoDup items acc :
  NoDup acc -> NoDup (foldl (fun s v => Set_add v s) acc items).
Proof.
  revert acc. induction items as [|v items IH]; intros acc Hacc; simpl; [done|].
  by apply IH, Set_add_NoDup.
Qed.

Lemma Set_add_all_length_le items acc :
  (length (foldl (fun s v => Set_add v s) acc items) <= length acc + length items)%nat.
Proof.
  revert acc. induction items as [|v items IH]; intros acc; simpl; [lia|].
  etransitivity; [apply IH|].
  unfold Set_add. destruct (Set_has v acc); [lia|].
  rewrite length_app. simpl. lia.
Qed.

Lemma Set_add_all_length items acc :
  length (foldl (fun s v => Set_add v s) acc items) = (length acc + length items)%nat
  <-> NoDup items /\ forall v, v ∈ items -> v ∉ acc.
Proof.
  revert acc. induction items as [|v items IH]; intros acc; simpl.
  - split; [|lia]. intros _. split; [constructor|]. intros v Hv.
    by apply elem_of_nil in Hv.
  - unfold Set_add at 2, Set_has. case_bool_decide as Hin.
    + pose proof (Set_add_all_length_le items acc). split; [lia|].
      intros [_ Hfresh]. destruct (Hfresh v); [by left|done].
    + replace (length acc + S (length items))%nat
        with (length (acc ++ [v]) + length items)%nat
        by (rewrite length_app; simpl; lia).
      rewrite IH, NoDup_cons. split.
      * intros [Hnd Hfresh]. split; [split; [|done]|].
        -- intros Hv. apply (Hfresh v Hv). apply elem_of_app. right. by left.
        -- intros w Hw Hacc. apply elem_of_cons in Hw as [->|Hw]; [done|].
           apply (Hfresh w Hw). apply elem_of_app. by left.
      * intros [[Hv Hnd] Hfresh]. split; [done|].
        intros w Hw Hacc. apply elem_of_app in Hacc as [Hacc|Hacc].
        -- apply (Hfresh w); [by right|done].
        -- apply list_elem_of_singleton in Hacc as ->. done.
Qed.

(** X17: "Select all" selects every loaded row. The header check box then
    shows checked exactly when there is a row and the row identifiers are
    pairwise distinct: with two rows of the same identifier it stays
    unchecked although every row is selected. *)
Theorem selectAllChange_selects_all g rows :
  let g' := selectAllChange true rows g in
  (forall r, r ∈ rows -> Set_has (row_id r) (selectedRows g') = true) /\
  (forall v, Set_has v (selectedRows g') = true -> exists r, r ∈ rows /\ row_id r = v) /\
  (headerChecked g' rows = true <-> rows <> [] /\ NoDup (row_id <$> rows)).
Proof.
  intros g'. subst g'. unfold selectAllChange, headerChecked, Set_of. simpl.
  split; [|split].
  - intros r Hr. apply Set_has_true, Set_add_all_elem. right.
    apply list_elem_of_In, in_map. by apply list_elem_of_In.
  - intros v Hv. apply Set_has_true, Set_add_all_elem in Hv as [Hv|Hv];
      [by apply elem_of_nil in Hv|].
    apply list_elem_of_In, in_map_iff in Hv as (r & Hr & Hin).
    exists r. split; [by apply list_elem_of_In|done].
  - rewrite andb_true_iff, Nat.eqb_eq, Nat.ltb_lt.
    pose proof (Set_add_all_length (map row_id rows) []) as Hlen.
    simpl in Hlen. rewrite length_map in Hlen. rewrite Hlen.
    change (map row_id rows) with (row_id <$> rows).
    split.
    + intros [[Hnd _] Hpos]. split; [|done]. intros ->. simpl in Hpos. lia.
    + intros [Hne Hnd]. split; [split; [done|]|].
      * intros v _ Hv. by apply elem_of_nil in Hv.
      * destruct rows; [done|]. simpl. lia.
Qed.

Lemma selectAllChange_selects_all_witness :
  let rows := [contactRow "row_1" "Ada" true; contactRow "row_2" "Bob" false] in
  Set_has (VString "row_2") (selectedRows (selectAllChange true rows initialGrid)) = true /\
  headerChecked (selectAllChange true rows initialGrid) rows = true.
Proof.
  destruct (selectAllChange_selects_all initialGrid
              [contactRow "row_1" "Ada" true; contactRow "row_2" "Bob" false])
    as (Hall & _ & Hheader).
  split.
  - apply (Hall (contactRow "row_2" "Bob" false)). right. left.
  - apply Hheader. split; [discriminate|].
    repeat constructor; intros Hin;
      repeat (apply elem_of_cons in Hin as [Hin|Hin]; [discriminate|]);
      by apply elem_of_nil in Hin.
Defined.

(** Clearing the header check box empties the selection. *)
Lemma selectAllChange_clears g rows :
  selectedRows (selectAllChange false rows g) = [].
Proof. done. Qed.

(** X18: Ticking the check box of a row that is not selected and unticking it
    again gives back the selection as it was; ticking selects the row and
    changes the state of no other identifier. *)
Theorem rowCheckedChange_tick_untick g row :
  let ticked := rowCheckedChange true row g in
  Set_has (row_id row) (selectedRows ticked) = true /\
  (forall v, v <> row_id row ->
     Set_has v (selectedRows ticked) = Set_has v (selectedRows g)) /\
  Set_has (row_id row) (selectedRows (rowCheckedChange false row ticked)) = false /\
  (Set_has (row_id row) (selectedRows g) = false ->
     selectedRows (rowCheckedChange false row ticked) = selectedRows g).
Proof.
  intros ticked. subst ticked. unfold rowCheckedChange. simpl.
  split; [|split; [|split]].
  - apply Set_has_true, Set_add_elem. by left.
  - intros v Hv. unfold Set_has. apply bool_decide_ext.
    rewrite Set_add_elem. tauto.
  - unfold Set_has, Set_delete. apply bool_decide_eq_false_2.
    rewrite list_elem_of_filter. tauto.
  - intros Hnot. unfold Set_add. rewrite Hnot. unfold Set_delete.
    rewrite filter_app, filter_cons_False, filter_nil, app_nil_r by tauto.
    apply filter_all. intros v Hv ->.
    apply Set_has_true in Hv. congruence.
Qed.

Lemma rowCheckedChange_tick_untick_witness :
  let row := contactRow "row_2" "Bob" false in
  let g := setSelectedRows [VString "row_1"] initialGrid in
  selectedRows (rowCheckedChange false row (rowCheckedChange true row g))
  = [VString "row_1"].
Proof.
  apply (rowCheckedChange_tick_untick
           (setSelectedRows [VString "row_1"] initialGrid)
           (contactRow "row_2" "Bob" false)).
  by vm_compute.
Defined.

(** ** Bulk delete *)

Lemma bulkDeleteClick_calls_witness :
  let t := contacts [contactRow "row_1" "Ada" true; contactRow "row_2" "Bob" false] in
  let g := setSelectedRows [VString "row_2"; VString "row_1"] initialGrid in
  remote_log (snd (bulkDeleteClick all_succeed (g, showing t)))
  = [TableRowsDelete (VString "row_2"); TableRowsDelete (VString "row_1")] /\
  selectedRows (fst (bulkDeleteClick all_succeed (g, showing t))) = [].
Proof.
  apply (bulkDeleteClick_calls all_succeed
           (setSelectedRows [VString "row_2"; VString "row_1"] initialGrid)
           (showing (contacts [contactRow "row_1" "Ada" true;
                               contactRow "row_2" "Bob" false]))
           (contacts [contactRow "row_1" "Ada" true; contactRow "row_2" "Bob" false])).
  reflexivity.
Defined.

(** X20: Every handler started by the [Delete (n)] button filters the rows of
    the render in which the button was clicked, and the last handler to
    finish sets the state. With the handlers finishing in the order in
    which they were started, when the delete of the last selected
    identifier succeeds the local table has lost the rows of that
    identifier only: the rows of the other selected identifiers are still
    shown, whether or not they were deleted remotely. *)
Theorem bulkDeleteClick_removes_last_only remote_ok g s t ids lastId :
  activeTable s = Some t ->
  selectedRows g = ids ++ [lastId] ->
  remote_ok (TableRowsDelete lastId) = true ->
  let result := bulkDeleteClick remote_ok (g, s) in
  rows <$> activeTable (snd result)
  = Some (filter (fun r => row_id r <> lastId) (rows t)) /\
  selectedRows (fst result) = [].
Proof.
  intros Hactive Hsel Hok result. subst result.
  unfold bulkDeleteClick, onRowDelete. cbn [fst snd]. split; [|done].
  rewrite Hsel, Hactive, foldl_app. cbn [foldl].
  by rewrite handleRowDelete_run, Hok.
Qed.

Lemma bulkDeleteClick_removes_last_only_witness :
  let r1 := contactRow "row_1" "Ada" true in
  let r2 := contactRow "row_2" "Bob" false in
  let g := setSelectedRows [VString "row_1"; VString "row_2"] initialGrid in
  let result := bulkDeleteClick all_succeed (g, showing (contacts [r1; r2])) in
  rows <$> activeTable (snd result)
  = Some (filter (fun r => row_id r <> VString "row_2") [r1; r2]) /\
  selectedRows (fst result) = [].
Proof.
  apply (bulkDeleteClick_removes_last_only all_succeed
           (setSelectedRows [VString "row_1"; VString "row_2"] initialGrid)
           (showing (contacts [contactRow "row_1" "Ada" true;
                               contactRow "row_2" "Bob" false]))
           (contacts [contactRow "row_1" "Ada" true; contactRow "row_2" "Bob" false])
           [VString "row_1"] (VString "row_2")).
  - reflexivity.
  - reflexivity.
  - reflexivity.
Defined.

(** ** The column editor of the dialog *)

Lemma remove_index_length {A} (l : list A) i :
  (i < length l)%nat -> length (remove_index i l) = pred (length l).
Proof.
  revert i. induction l as [|x l IH]; intros i Hi; simpl in *; [lia|].
  destruct i as [|i]; [done|]. simpl. rewrite IH by lia. lia.
Qed.

Lemma remove_index_lookup_lt {A} (l : list A) i j :
  (j < i)%nat -> remove_index i l !! j = l !! j.
Proof.
  revert i j. induction l as [|x l IH]; intros i j Hj; [done|].
  destruct i as [|i]; [lia|]. destruct j as [|j]; [done|].
  simpl. apply IH. lia.
Qed.

Lemma remove_index_lookup_ge {A} (l : list A) i j :
  (i <= j)%nat -> remove_index i l !! j = l !! S j.
Proof.
  revert i j. induction l as [|x l IH]; intros i j Hj; [done|].
  destruct i as [|i]; [done|]. destruct j as [|j]; [lia|].
  simpl. apply IH. lia.
Qed.

Lemma remove_index_out_of_range {A} (l : list A) i :
  (length l <= i)%nat -> remove_index i l = l.
Proof.
  revert i. induction l as [|x l IH]; intros i Hi; [done|].
  destruct i as [|i]; simpl in *; [lia|]. f_equal. apply IH. lia.
Qed.

(** X21: Removing the column at an index, when there are at least two
    columns: the list is one shorter, the columns before the index stay
    in place, the columns after it move up by one, and the table name is
    kept. *)
Theorem handleRemoveColumn_removes index d :
  (1 < length (dialogColumns d))%nat ->
  (index < length (dialogColumns d))%nat ->
  let d' := handleRemoveColumn index d in
  length (dialogColumns d') = pred (length (dialogColumns d)) /\
  (forall j, (j < index)%nat -> dialogColumns d' !! j = dialogColumns d !! j) /\
  (forall j, (index <= j)%nat -> dialogColumns d' !! j = dialogColumns d !! S j) /\
  tableName d' = tableName d.
Proof.
  intros Hmany Hindex d'. subst d'. unfold handleRemoveColumn.
  apply Nat.ltb_lt in Hmany. rewrite Hmany. simpl.
  split; [by apply remove_index_length|].
  split; [intros; by apply remove_index_lookup_lt|].
  split; [intros; by apply remove_index_lookup_ge|done].
Qed.

Lemma handleRemoveColumn_removes_witness :
  let d' := handleRemoveColumn 0 contactsDialog in
  length (dialogColumns d') = 1%nat /\
  (forall j, (j < 0)%nat -> dialogColumns d' !! j = dialogColumns contactsDialog !! j) /\
  (forall j, (0 <= j)%nat -> dialogColumns d' !! j = dialogColumns contactsDialog !! S j) /\
  tableName d' = tableName contactsDialog.
Proof.
  apply (handleRemoveColumn_removes 0 contactsDialog); simpl; lia.
Defined.

(** X22: The last remaining column cannot be removed, and an index past the
    end removes nothing. *)
Theorem handleRemoveColumn_guard index d :
  (length (dialogColumns d) <= 1)%nat \/ (length (dialogColumns d) <= index)%nat ->
  handleRemoveColumn index d = d.
Proof.
  intros Hguard. unfold handleRemoveColumn.
  destruct (1 <? length (dialogColumns d))%nat eqn:Hmany; [|done].
  apply Nat.ltb_lt in Hmany. destruct Hguard as [Hone|Hrange]; [lia|].
  rewrite remove_index_out_of_range by done. by destruct d.
Qed.

Lemma handleRemoveColumn_guard_witness :
  handleRemoveColumn 0 (handleRemoveColumn 0 initialDialog)
  = handleRemoveColumn 0 initialDialog.
Proof.
  apply (handleRemoveColumn_guard 0 (handleRemoveColumn 0 initialDialog)).
  left. simpl. lia.
Defined.

(** X23: Whatever is done in the column editor, the dialog keeps at least one
    column: adding, editing and removing columns never empty a non-empty
    column list. The column test of [handleCreate] therefore never fails
    in a dialog that started from its two default columns. *)
Theorem dialog_keeps_a_column d :
  dialogColumns d <> [] ->
  (forall now, dialogColumns (handleAddColumn now d) <> []) /\
  (forall index, dialogColumns (handleRemoveColumn index d) <> []) /\
  (forall index updates d',
     handleUpdateColumn index updates d = Some d' ->
     dialogColumns d' <> [] /\
     length (dialogColumns d') = length (dialogColumns d)).
Proof.
  intros Hne. split; [|split].
  - intros now. unfold handleAddColumn. simpl. by destruct (dialogColumns d).
  - intros index. unfold handleRemoveColumn.
    destruct (1 <? length (dialogColumns d))%nat eqn:Hmany; [|done].
    apply Nat.ltb_lt in Hmany. simpl.
    destruct (decide (index < length (dialogColumns d))%nat) as [Hin|Hout].
    + intros Hnil. apply (f_equal length) in Hnil.
      rewrite remove_index_length in Hnil by done. simpl in Hnil. lia.
    + by rewrite remove_index_out_of_range by lia.
  - intros index updates d' Hupd. unfold handleUpdateColumn in Hupd.
    destruct (dialogColumns d !! index) as [col|]; [|done].
    injection Hupd as <-. simpl. rewrite length_insert. split; [|done].
    intros Hnil. apply (f_equal length) in Hnil. rewrite length_insert in Hnil.
    by destruct (dialogColumns d).
Qed.

Lemma dialog_keeps_a_column_witness :
  dialogColumns (handleRemoveColumn 1 (handleRemoveColumn 0 initialDialog)) <> [].
Proof.
  apply (dialog_keeps_a_column (handleRemoveColumn 0 initialDialog)).
  discriminate.
Defined.

(** X24: Once the name and the columns pass the test, [handleCreate] resets
    the dialog to its initial content and closes it without waiting for
    the remote store: when the creation is rejected the typed name and
    columns are gone all the same, and no table has been added. *)
Theorem handleCreate_resets_dialog remote_ok (now : Z) isoNow user_id d s :
  trim (tableName d) <> "" ->
  dialogColumns d <> [] ->
  let result := handleCreate remote_ok now isoNow user_id (d, s) in
  fst result = initialDialog /\
  createTableOpen (snd result) = false /\
  (remote_ok (TablesCreate ("table_" +:+ pretty now) (trim (tableName d))
                (dialogColumns d) user_id) = false ->
   tables (snd result) = tables s /\ activeTable (snd result) = activeTable s).
Proof.
  intros Hname Hcols result. subst result. unfold handleCreate.
  apply String.eqb_neq in Hname. simpl. rewrite Hname. simpl.
  replace (0 <? Z.of_nat (length (dialogColumns d))) with true.
  2:{ symmetry. apply Z.ltb_lt. destruct (dialogColumns d); [done|]. simpl. lia. }
  cbn [fst snd]. rewrite handleCreateTable_run.
  split; [done|]. split; [by destruct (remote_ok _)|].
  by intros ->.
Qed.

Lemma handleCreate_resets_dialog_witness :
  let result := handleCreate all_fail 1700000000000 "2023-11-14T22:13:20.000Z"
                  "user_1" (contactsDialog, initialApp) in
  fst result = initialDialog /\
  createTableOpen (snd result) = false /\
  (all_fail (TablesCreate "table_1700000000000" "Contacts"
               [nameColumn; activeColumn] "user_1") = false ->
   tables (snd result) = [] /\ activeTable (snd result) = None).
Proof.
  apply (handleCreate_resets_dialog all_fail 1700000000000
           "2023-11-14T22:13:20.000Z" "user_1" contactsDialog initialApp).
  - discriminate.
  - discriminate.
Defined.

Lemma handleCreate_rejects_witness :
  handleCreate all_succeed 1700000000000 "2023-11-14T22:13:20.000Z" "user_1"
    ({| tableName := "   "; dialogColumns := defaultColumns |}, initialApp)
  = ({| tableName := "   "; dialogColumns := defaultColumns |}, initialApp).
Proof.
  apply (handleCreate_rejects all_succeed 1700000000000 "2023-11-14T22:13:20.000Z"
           "user_1" {| tableName := "   "; dialogColumns := defaultColumns |} initialApp).
  left. reflexivity.
Defined.

(** ** The options input of a select column *)

Lemma split_comma_nonempty s : split_comma s <> [].
Proof.
  destruct s as [|c s]; simpl; [done|].
  destruct (Ascii.eqb c ","); [done|]. by destruct (split_comma s).
Qed.

Lemma split_comma_snoc s : split_comma (s +:+ ",") = split_comma s ++ [""].
Proof.
  induction s as [|c s IH]; [done|].
  simpl. rewrite IH. destruct (Ascii.eqb c ","); [done|].
  pose proof (split_comma_nonempty s). by destruct (split_comma s).
Qed.

Lemma split_comma_comma_free a : comma_free a = true -> split_comma a = [a].
Proof.
  induction a as [|c a IH]; simpl; [done|].
  intros [Hc Ha]%andb_true_iff. apply negb_true_iff in Hc.
  by rewrite Hc, IH.
Qed.

Lemma split_comma_app a rest :
  comma_free a = true ->
  split_comma (a +:+ String "," rest) = a :: split_comma rest.
Proof.
  induction a as [|c a IH]; simpl; [done|].
  intros [Hc Ha]%andb_true_iff. apply negb_true_iff in Hc.
  by rewrite Hc, IH.
Qed.

Lemma split_comma_pieces s : Forall (fun p => comma_free p = true) (split_comma s).
Proof.
  induction s as [|c s IH]; simpl; [by repeat constructor|].
  destruct (Ascii.eqb c ",") eqn:Hc; [by constructor|].
  destruct (split_comma s) as [|p ps].
  - constructor; [|done]. simpl. by rewrite Hc.
  - apply Forall_cons in IH as [Hp Hps]. constructor; [|done].
    simpl. by rewrite Hc, Hp.
Qed.

Lemma trimStart_comma_free s : comma_free s = true -> comma_free (trimStart s) = true.
Proof.
  induction s as [|c s IH]; simpl; [done|].
  intros Hs. destruct (is_white_space c); [|done].
  apply andb_true_iff in Hs as [_ Hs]. by apply IH.
Qed.

Lemma trimEnd_comma_free s : comma_free s = true -> comma_free (trimEnd s) = true.
Proof.
  induction s as [|c s IH]; simpl; [done|].
  intros [Hc Hs]%andb_true_iff. specialize (IH Hs).
  destruct (trimEnd s) as [|c' t].
  - destruct (is_white_space c); [done|]. simpl. by rewrite Hc.
  - simpl in *. by rewrite Hc, IH.
Qed.

Lemma trimEnd_idemp s : trimEnd (trimEnd s) = trimEnd s.
Proof.
  induction s as [|c s IH]; simpl; [done|].
  destruct (trimEnd s) as [|c' t] eqn:Ht.
  - destruct (is_white_space c) eqn:Hc; simpl; [done|]. by rewrite Hc.
  - change (trimEnd (String c (String c' t))) with
      (match trimEnd (String c' t) with
       | EmptyString => if is_white_space c then EmptyString else String c EmptyString
       | u => String c u
       end).
    by rewrite IH.
Qed.

Lemma trimStart_starts_clean s : starts_clean (trimStart s).
Proof.
  induction s as [|c s IH]; simpl; [done|].
  by destruct (is_white_space c) eqn:Hc.
Qed.

Lemma trimEnd_starts_clean s : starts_clean s -> starts_clean (trimEnd s).
Proof.
  destruct s as [|c s]; simpl; [done|]. intros Hc.
  destruct (trimEnd s); [by rewrite Hc|done].
Qed.

Lemma trimStart_clean s : starts_clean s -> trimStart s = s.
Proof. destruct s as [|c s]; simpl; [done|]. by intros ->. Qed.

Lemma trim_idemp s : trim (trim s) = trim s.
Proof.
  unfold trim.
  rewrite (trimStart_clean (trimEnd (trimStart s)))
    by apply trimEnd_starts_clean, trimStart_starts_clean.
  apply trimEnd_idemp.
Qed.

Lemma trim_comma_free s : comma_free s = true -> comma_free (trim s) = true.
Proof. intros Hs. by apply trimEnd_comma_free, trimStart_comma_free. Qed.

Lemma parseOptions_space text : parseOptions (String " " text) = parseOptions text.
Proof.
  unfold parseOptions. simpl.
  pose proof (split_comma_nonempty text). by destruct (split_comma text).
Qed.

Lemma parseOptions_piece a rest :
  comma_free a = true ->
  parseOptions (a +:+ String "," rest)
  = (if String.eqb (trim a) "" then [] else [trim a]) ++ parseOptions rest.
Proof.
  intros Ha. unfold parseOptions. rewrite split_comma_app by done. simpl.
  by destruct (String.eqb (trim a) "").
Qed.

(** X26: The options input shows the options joined by ", " and reads its text
    back by splitting at commas: for options that are not empty, carry no
    white space at either end and no comma, reading back the text shown
    gives the same options. *)
Theorem parseOptions_join options :
  Forall clean_option options ->
  parseOptions (join_comma options) = options.
Proof.
  induction options as [|o rest IH]; intros Hclean; [done|].
  apply Forall_cons in Hclean as [(Hne & Htrim & Hfree) Hrest].
  apply String.eqb_neq in Hne.
  destruct rest as [|o' rest'].
  - simpl. unfold parseOptions. rewrite split_comma_comma_free by done.
    simpl. by rewrite Htrim, Hne.
  - change (join_comma (o :: o' :: rest'))
      with (o +:+ String "," (String " " (join_comma (o' :: rest')))).
    rewrite parseOptions_piece by done. rewrite parseOptions_space, Htrim, Hne.
    simpl. f_equal. by apply IH.
Qed.

Lemma parseOptions_join_witness :
  parseOptions (optionsText (selectColumn ["Open"; "In progress"; "Done"]))
  = ["Open"; "In progress"; "Done"].
Proof.
  apply (parseOptions_join ["Open"; "In progress"; "Done"]).
  repeat constructor; discriminate.
Defined.

(** X27: Whatever is typed in the options input, the options read from it are
    not empty, carry no white space at either end and no comma; and a
    comma typed at the end of the text adds no option, so the text shown
    after the change has lost it. *)
Theorem parseOptions_clean text :
  Forall clean_option (parseOptions text) /\
  parseOptions (text +:+ ",") = parseOptions text.
Proof.
  split.
  - apply Forall_forall. intros o Ho. unfold parseOptions in Ho.
    apply list_elem_of_In, filter_In in Ho as [Ho Hne].
    apply in_map_iff in Ho as (p & <- & Hp).
    simpl in Hne. apply negb_true_iff, String.eqb_neq in Hne.
    split; [done|]. split; [apply trim_idemp|].
    apply trim_comma_free.
    pose proof (split_comma_pieces text) as Hpieces.
    rewrite Forall_forall in Hpieces. by apply Hpieces, list_elem_of_In.
  - unfold parseOptions. rewrite split_comma_snoc, map_app, List.filter_app.
    simpl. by rewrite app_nil_r.
Qed.

(** The text "a," typed into the options input of a column is shown back
    as "a". *)
Example optionsChange_comma_lost :
  (optionsChange 0 "a," {| tableName := "T"; dialogColumns := [selectColumn []] |}
     ≫= fun d => optionsText <$> dialogColumns d !! 0%nat)
  = Some "a".
Proof. by vm_compute. Qed.

(** ** The search of the sidebar *)

Lemma prefix_spec q s : String.prefix q s = true <-> exists b, s = q +:+ b.
Proof.
  revert s. induction q as [|c q IH]; intros s; simpl.
  - destruct s; split; eauto.
  - destruct s as [|c' s]; simpl.
    + split; [done|]. by intros [b Hb].
    + destruct (ascii_dec c c') as [->|Hne].
      * rewrite IH. split; intros [b Hb]; exists b; [by rewrite Hb|by injection Hb].
      * split; [done|]. intros [b Hb]. injection Hb as Hc _. done.
Qed.

Lemma includes_spec s q :
  includes s q = true <-> exists a b, s = a +:+ q +:+ b.
Proof.
  induction s as [|c s IH].
  - cbn [includes]. destruct (String.prefix q "") eqn:Hp.
    + split; [|done]. intros _. apply prefix_spec in Hp as [b Hb].
      exists "", b. done.
    + split; [done|]. intros (a & b & Hab).
      destruct a; [|done]. simpl in Hab.
      assert (String.prefix q "" = true) as Hp'; [|congruence].
      apply prefix_spec. eauto.
  - cbn [includes]. destruct (String.prefix q (String c s)) eqn:Hp.
    + split; [|done]. intros _. apply prefix_spec in Hp as [b Hb].
      exists "", b. done.
    + rewrite IH. split.
      * intros (a & b & ->). by exists (String c a), b.
      * intros (a & b & Hab). destruct a as [|c' a].
        -- simpl in Hab. assert (String.prefix q (String c s) = true) as Hp';
             [|congruence]. apply prefix_spec. eauto.
        -- simpl in Hab. injection Hab as -> ->. eauto.
Qed.

Lemma filteredTables_spec_aux entries searchQuery table :
  table ∈ filteredTables entries searchQuery
  <-> table ∈ entries /\
      exists before after,
        toLowerCase (entry_name table) = before +:+ toLowerCase searchQuery +:+ after.
Proof.
  unfold filteredTables.
  rewrite !list_elem_of_In, filter_In, includes_spec. done.
Qed.

(** X28: The sidebar lists exactly the tables whose name contains the search
    text, both taken in lower case, and lists them in the order of the
    table list. *)
Theorem filteredTables_spec entries searchQuery :
  (forall table,
     table ∈ filteredTables entries searchQuery
     <-> table ∈ entries /\
         exists before after,
           toLowerCase (entry_name table) = before +:+ toLowerCase searchQuery +:+ after) /\
  filteredTables entries searchQuery `sublist_of` entries.
Proof.
  split; [intros; apply filteredTables_spec_aux|].
  unfold filteredTables. induction entries as [|e entries IH]; simpl; [done|].
  destruct (includes _ _); by constructor.
Qed.

Lemma includes_empty s : includes s "" = true.
Proof. by destruct s. Qed.

(** With an empty search text every table is listed. *)
Theorem filteredTables_empty_query entries :
  filteredTables entries "" = entries.
Proof.
  unfold filteredTables. apply forallb_filter_id, forallb_forall.
  intros table _. apply includes_empty.
Qed.

Lemma append_empty_r s : s +:+ "" = s.
Proof.
  induction s as [|a s IH]; [done|].
  change (String a (s +:+ "") = String a s). by rewrite IH.
Qed.

Lemma lower_char_idemp a : lower_char (lower_char a) = lower_char a.
Proof. by destruct a as [[] [] [] [] [] [] [] []]. Qed.

Lemma toLowerCase_idemp s : toLowerCase (toLowerCase s) = toLowerCase s.
Proof. induction s as [|a s IH]; simpl; [done|]. by rewrite lower_char_idemp, IH. Qed.

(** X29: The search ignores case: a table is listed whenever the search text
    is its name in any mix of upper and lower case, and folding the case
    of the search text does not change the list. *)
Theorem filteredTables_ignores_case entries searchQuery :
  (forall table, table ∈ entries ->
     toLowerCase searchQuery = toLowerCase (entry_name table) ->
     table ∈ filteredTables entries searchQuery) /\
  filteredTables entries (toLowerCase searchQuery) = filteredTables entries searchQuery.
Proof.
  split.
  - intros table Hin Hq. apply filteredTables_spec_aux. split; [done|].
    exists "", "". rewrite Hq.
    change ("" +:+ ?x) with x. by rewrite append_empty_r.
  - unfold filteredTables. by rewrite toLowerCase_idemp.
Qed.

Lemma filteredTables_ignores_case_witness :
  {| entry_id := "table_1"; entry_name := "Contacts" |}
  ∈ filteredTables [ {| entry_id := "table_1"; entry_name := "Contacts" |};
                     {| entry_id := "table_2"; entry_name := "Orders" |} ] "CONTACTS".
Proof.
  destruct (filteredTables_ignores_case
              [ {| entry_id := "table_1"; entry_name := "Contacts" |};
                {| entry_id := "table_2"; entry_name := "Orders" |} ] "CONTACTS")
    as [Hname _].
  apply Hname; [set_solver|reflexivity].
Defined.

(** ** Composed actions *)

Lemma handleRowUpdate_run_accepted remote_ok t rowId columnId value s :
  columnId <> "id" ->
  (exists r, r ∈ rows t /\ row_id r = rowId) ->
  (forall data, remote_ok (TableRowsUpdate rowId data) = true) ->
  exists updatedRow,
    run (handleRowUpdate remote_ok (Some t) rowId columnId value) s
    = committed s [TableRowsUpdate rowId updatedRow] t
        (with_rows t (rows_after_update t rowId columnId value)) None.
Proof.
  intros Hcol (r0 & Hr0 & Hid0) Hok. rewrite handleRowUpdate_run.
  destruct (find_is_Some (fun r => strict_eq (row_id r) rowId)
              (rows_after_update t rowId columnId value) (<[columnId := value]> r0))
    as [updatedRow ->].
  { unfold rows_after_update. apply list_elem_of_In, in_map_iff. exists r0.
    split; [|by apply list_elem_of_In].
    unfold strict_eq. by rewrite bool_decide_eq_true_2. }
  { unfold strict_eq. rewrite row_id_insert_ne by done. by apply bool_decide_eq_true_2. }
  rewrite Hok. by exists updatedRow.
Qed.

(** X16: Editing a cell and leaving it, with the update accepted: the row at
    the same position holds the value under the column's key, the editor
    is closed and the cell displays that value, or the Empty placeholder
    when the value committed is falsy (an unticked check box, an emptied
    field). *)
Theorem cell_edit_then_display remote_ok g s t i r column value :
  activeTable s = Some t ->
  rows t !! i = Some r ->
  col_id column <> "id" ->
  (forall data, remote_ok (TableRowsUpdate (row_id r) data) = true) ->
  let result := handleCellBlur remote_ok (row_id r) (col_id column) value (g, s) in
  exists t' r',
    activeTable (snd result) = Some t' /\
    rows t' !! i = Some r' /\
    get r' (col_id column) = value /\
    renderCell (fst result) r' column
    = DisplayView (CellDisplay column (js_or value (VString ""))).
Proof.
  intros Hactive Hi Hcol Hok result. subst result.
  unfold handleCellBlur, onCellEdit. cbn [fst snd]. rewrite Hactive.
  destruct (handleRowUpdate_run_accepted remote_ok t (row_id r) (col_id column) value s)
    as [updatedRow ->]; [done| |done|].
  { exists r. split; [|done]. by eapply list_elem_of_lookup_2. }
  eexists _, _. split; [reflexivity|]. simpl.
  rewrite rows_after_update_lookup, Hi. simpl.
  unfold strict_eq. rewrite bool_decide_eq_true_2 by done.
  split; [reflexivity|].
  assert (get (<[col_id column := value]> r) (col_id column) = value) as Hget.
  { unfold get. by rewrite lookup_insert_eq. }
  split; [done|].
  unfold renderCell, isEditing, cellValue. simpl.
  by rewrite andb_false_r, Hget.
Qed.

Lemma cell_edit_then_display_witness :
  let t := contacts [contactRow "row_1" "Ada" true] in
  let g := handleCellClick (VString "row_1") "Active" initialGrid in
  let result := handleCellBlur all_succeed (VString "row_1") "Active" (VBool false)
                  (g, showing t) in
  exists t' r',
    activeTable (snd result) = Some t' /\
    rows t' !! 0%nat = Some r' /\
    get r' "Active" = VBool false /\
    renderCell (fst result) r' activeColumn = DisplayView EmptyPlaceholder.
Proof.
  apply (cell_edit_then_display all_succeed
           (handleCellClick (VString "row_1") "Active" initialGrid)
           (showing (contacts [contactRow "row_1" "Ada" true]))
           (contacts [contactRow "row_1" "Ada" true]) 0
           (contactRow "row_1" "Ada" true) activeColumn (VBool false)).
  - reflexivity.
  - reflexivity.
  - discriminate.
  - reflexivity.
Defined.

Lemma filter_snoc_fresh (cols : list Column) c id :
  col_id c = id -> id ∉ col_id <$> cols ->
  filter (fun col => col_id col <> id) (cols ++ [c]) = cols.
Proof.
  intros Hc Hfresh.
  rewrite filter_app, filter_cons_False, filter_nil, app_nil_r by tauto.
  apply filter_all. intros col Hcol Heq. apply Hfresh. rewrite <- Heq.
  by apply list_elem_of_fmap_2.
Qed.

Lemma delete_absent_rows (rs : list Row) k :
  (forall r, r ∈ rs -> r !! k = None) -> map (fun r : Row => delete k r) rs = rs.
Proof.
  induction rs as [|r rs IH]; intros Hkeys; [done|].
  simpl. rewrite delete_id by (apply Hkeys; left).
  f_equal. apply IH. intros r' Hr'. apply Hkeys. by right.
Qed.

(** X14: Adding a column and deleting it again gives back the active table as
    it was, provided the generated identifier is not that of an existing
    column and no row has it as a key. *)
Theorem column_add_then_delete remote_ok (now : Z) isoNow s t :
  activeTable s = Some t ->
  "col_" +:+ pretty now ∉ col_id <$> columns t ->
  (forall r, r ∈ rows t -> r !! ("col_" +:+ pretty now) = None) ->
  (forall c, remote_ok c = true) ->
  let s1 := run (handleColumnAdd remote_ok now isoNow (activeTable s)) s in
  let s2 := run (handleColumnDelete remote_ok isoNow (activeTable s1)
                   ("col_" +:+ pretty now)) s1 in
  activeTable s2 = Some t.
Proof.
  intros Hactive Hfresh Hkeys Hok s1 s2. subst s1 s2.
  rewrite Hactive, handleColumnAdd_run, Hok.
  match goal with
  | |- context [handleColumnDelete _ _ (activeTable (committed ?s0 ?c ?t0 ?u ?m))] =>
      change (activeTable (committed s0 c t0 u m)) with (Some u)
  end.
  rewrite handleColumnDelete_run, Hok.
  replace (forallb remote_ok _) with true
    by (symmetry; apply forallb_forall; intros; apply Hok).
  destruct t as [tid tname cs rs created updated owner]. simpl in *.
  f_equal. unfold with_rows, with_columns. simpl.
  f_equal; [by apply filter_snoc_fresh|by apply delete_absent_rows].
Qed.

Lemma column_add_then_delete_witness :
  let t := contacts [contactRow "row_1" "Ada" true] in
  let s1 := run (handleColumnAdd all_succeed 1700000000000 "2023-11-14T22:13:20.000Z"
                   (Some t)) (showing t) in
  let s2 := run (handleColumnDelete all_succeed "2023-11-14T22:13:20.000Z"
                   (activeTable s1) "col_1700000000000") s1 in
  activeTable s2 = Some t.
Proof.
  apply (column_add_then_delete all_succeed 1700000000000 "2023-11-14T22:13:20.000Z"
           (showing (contacts [contactRow "row_1" "Ada" true]))
           (contacts [contactRow "row_1" "Ada" true])).
  - reflexivity.
  - simpl. intros Hin.
    repeat (apply elem_of_cons in Hin as [Hin|Hin]; [discriminate|]).
    by apply elem_of_nil in Hin.
  - intros r Hr. simpl in Hr. apply list_elem_of_singleton in Hr as ->. by vm_compute.
  - reflexivity.
Defined.

(** ** Sorting columns of one kind *)

Section StableSort.

Context {A : Type} (cmp : A -> A -> Z).
Hypothesis cmp_opp : forall x y, cmp y x = - cmp x y.

Lemma cmp_same x : cmp x x = 0.
Proof. pose proof (cmp_opp x x). lia. Qed.

Lemma cmp_le_both x y : cmp_le cmp x y -> cmp_le cmp y x -> cmp x y = 0.
Proof. unfold cmp_le. rewrite (cmp_opp x y). lia. Qed.

(** A stable ordered arrangement of given elements is unique: two ordered
    lists with the same elements, in which elements that compare equal
    come in the same order, are the same list. *)
Lemma stable_sort_unique l1 l2 :
  StronglySorted (cmp_le cmp) l1 -> StronglySorted (cmp_le cmp) l2 ->
  l1 ≡ₚ l2 ->
  (forall x, x ∈ l1 ->
     filter (fun r => cmp x r = 0) l1 = filter (fun r => cmp x r = 0) l2) ->
  l1 = l2.
Proof.
  intros H1. revert l2.
  induction H1 as [|x l1 Hs1 IH Hall1]; intros l2 H2 Hperm Hstable.
  { symmetry. by apply Permutation_nil. }
  destruct H2 as [|y l2 Hs2 Hall2].
  { by apply Permutation_nil_r in Hperm. }
  rewrite Forall_forall in Hall1, Hall2.
  assert (cmp x y = 0) as Hxy.
  { assert (x ∈ y :: l2) as Hx by (rewrite <- Hperm; left).
    assert (y ∈ x :: l1) as Hy by (rewrite Hperm; left).
    apply elem_of_cons in Hx as [->|Hx]; [apply cmp_same|].
    apply elem_of_cons in Hy as [->|Hy]; [apply cmp_same|].
    apply cmp_le_both; auto. }
  assert (x = y) as <-.
  { pose proof (Hstable x ltac:(left)) as Hf.
    rewrite !filter_cons_True in Hf by (done || apply cmp_same).
    by injection Hf. }
  f_equal. apply IH; [done|by eapply Permutation_cons_inv|].
  intros z Hz. pose proof (Hstable z ltac:(by right)) as Hf.
  rewrite !filter_cons in Hf. destruct (decide (cmp z x = 0)); [by injection Hf|done].
Qed.

Lemma sort_insert_filter_on (P : A -> Prop) `{!forall x, Decision (P x)} x l :
  (forall y, y ∈ l -> P x -> P y -> cmp x y <= 0) ->
  filter P (sort_insert cmp x l) = filter P (x :: l).
Proof.
  induction l as [|y l IH]; intros Heq; simpl; [done|].
  destruct (cmp x y <=? 0) eqn:Hxy; [done|].
  apply Z.leb_gt in Hxy.
  rewrite filter_cons, IH, !filter_cons by (intros; apply Heq; [by right|done..]).
  destruct (decide (P y)) as [Hy|Hy], (decide (P x)) as [Hx|Hx]; try done.
  pose proof (Heq y ltac:(left) Hx Hy). lia.
Qed.

Lemma array_sort_filter_on (P : A -> Prop) `{!forall x, Decision (P x)} l :
  (forall y z, y ∈ l -> z ∈ l -> P y -> P z -> cmp y z <= 0) ->
  filter P (array_sort cmp l) = filter P l.
Proof.
  induction l as [|x l IH]; intros Heq; simpl; [done|].
  rewrite sort_insert_filter_on.
  - rewrite !filter_cons, IH; [done|].
    intros y z Hy Hz. apply Heq; by right.
  - intros y Hy. rewrite array_sort_perm in Hy. apply Heq; [by left|by right].
Qed.

(** On elements on which "not after" is transitive, the insertion sort
    computes the stable ordered arrangement, and so does every sort that
    meets the contract. *)
Lemma array_sort_is_the_stable_sort l :
  (forall x y z, x ∈ l -> y ∈ l -> z ∈ l ->
     cmp_le cmp x y -> cmp_le cmp y z -> cmp_le cmp x z) ->
  StronglySorted (cmp_le cmp) (array_sort cmp l) /\
  (forall x, x ∈ l ->
     filter (fun r => cmp x r = 0) (array_sort cmp l) = filter (fun r => cmp x r = 0) l) /\
  (forall l',
     l' ≡ₚ l -> StronglySorted (cmp_le cmp) l' ->
     (forall x, x ∈ l ->
        filter (fun r => cmp x r = 0) l' = filter (fun r => cmp x r = 0) l) ->
     l' = array_sort cmp l).
Proof.
  intros Htrans.
  assert (StronglySorted (cmp_le cmp) (array_sort cmp l)) as Hsorted.
  { apply (array_sort_StronglySorted cmp) with (P := fun x => x ∈ l).
    - intros x y Hxy. rewrite cmp_opp. lia.
    - intros x y z Hx Hy Hz. by apply Htrans.
    - by apply Forall_forall. }
  assert (forall x, x ∈ l ->
            filter (fun r => cmp x r = 0) (array_sort cmp l)
            = filter (fun r => cmp x r = 0) l) as Hstable.
  { intros x Hx. apply array_sort_filter_on.
    intros y z Hy Hz Hxy Hxz. apply (Htrans y x z); [done..| |].
    - unfold cmp_le. rewrite cmp_opp. lia.
    - unfold cmp_le. lia. }
  split; [done|]. split; [done|].
  intros l' Hperm Hsorted' Hstable'.
  apply stable_sort_unique; [done..| |].
  - by rewrite Hperm, array_sort_perm.
  - intros x Hx. rewrite Hperm in Hx. by rewrite Hstable, Hstable'.
Qed.

End StableSort.

Lemma js_lt_numeric v w :
  numeric_value v -> numeric_value w ->
  exists n m, ToNumber v = Some n /\ ToNumber w = Some m /\ js_lt v w = (n <? m).
Proof.
  destruct v, w; simpl; try done; intros Hv Hw; subst; eauto.
Qed.

Lemma in_order_trans_numeric col d a b c :
  numeric_value (get a col) -> numeric_value (get b col) -> numeric_value (get c col) ->
  in_order col d a b -> in_order col d b c -> in_order col d a c.
Proof.
  intros Ha Hb Hc. unfold in_order.
  destruct (js_lt_numeric _ _ Ha Hb) as (x & y & Hx & Hy & Hab).
  destruct (js_lt_numeric _ _ Hb Hc) as (y' & z & Hy' & Hz & Hbc).
  destruct (js_lt_numeric _ _ Ha Hc) as (x' & z' & Hx' & Hz' & Hac).
  destruct (js_lt_numeric _ _ Hb Ha) as (y2 & x2 & Hy2 & Hx2 & Hba).
  destruct (js_lt_numeric _ _ Hc Hb) as (z3 & y3 & Hz3 & Hy3 & Hcb).
  destruct (js_lt_numeric _ _ Hc Ha) as (z4 & x4 & Hz4 & Hx4 & Hca).
  simplify_eq.
  destruct d; rewrite ?Hab, ?Hbc, ?Hac, ?Hba, ?Hcb, ?Hca, !Z.ltb_ge; lia.
Qed.

Lemma consistent_sort_trans g rows x y z :
  consistent_sort g rows -> x ∈ rows -> y ∈ rows -> z ∈ rows ->
  cmp_le (compareRows (sortColumn g) (sortDirection g)) x y ->
  cmp_le (compareRows (sortColumn g) (sortDirection g)) y z ->
  cmp_le (compareRows (sortColumn g) (sortDirection g)) x z.
Proof.
  unfold consistent_sort. intros Hcons Hx Hy Hz.
  destruct (sortColumn g) as [col|]; [|done].
  destruct (decide (col = "")) as [->|Hcol]; [done|].
  destruct Hcons as [->|Hkind]; [done|].
  rewrite !compareRows_le by done.
  destruct Hkind as [Hstr|Hnum]; rewrite Forall_forall in *.
  - apply in_order_trans_strings; auto.
  - apply in_order_trans_numeric; auto.
Qed.

Lemma consistent_sort_perm g rows rows' :
  rows' ≡ₚ rows -> consistent_sort g rows -> consistent_sort g rows'.
Proof.
  intros Hperm. unfold consistent_sort, one_kind.
  destruct (sortColumn g) as [col|]; [|done].
  by rewrite Hperm.
Qed.

Lemma sortedRows_is_the_stable_sort g rows :
  consistent_sort g rows ->
  conforming g rows (sortedRows g rows) /\
  (forall output, conforming g rows output -> output = sortedRows g rows).
Proof.
  intros Hcons.
  destruct (array_sort_is_the_stable_sort
              (compareRows (sortColumn g) (sortDirection g))
              (fun x y => compareRows_opp _ _ x y) rows)
    as (Hsorted & Hstable & Hunique).
  { intros x y z Hx Hy Hz. exact (consistent_sort_trans g rows x y z Hcons Hx Hy Hz). }
  split.
  - split; [apply array_sort_perm|]. by split.
  - intros output (Hperm & Hsorted' & Hstable'). by apply Hunique.
Qed.

(** X1: When no sort column is set, or the sort column holds values of
    one kind (strings only, or only numbers, booleans, null and the empty
    string), the sorted view shows every row exactly once, ordered
    throughout, and rows that the comparator does not tell apart keep the
    order of the table. It is the only arrangement of the rows with these
    three properties, so it is what every engine with a conforming sort
    shows. *)
Theorem sortedRows_permutation_stable g rows :
  consistent_sort g rows ->
  let cmp := compareRows (sortColumn g) (sortDirection g) in
  sortedRows g rows ≡ₚ rows /\
  StronglySorted (cmp_le cmp) (sortedRows g rows) /\
  (forall x, x ∈ rows ->
     filter (fun r => cmp x r = 0) (sortedRows g rows)
     = filter (fun r => cmp x r = 0) rows) /\
  (forall output, conforming g rows output -> output = sortedRows g rows).
Proof.
  intros Hcons cmp.
  destruct (sortedRows_is_the_stable_sort g rows Hcons)
    as [(Hperm & Hsorted & Hstable) Hunique].
  done.
Qed.

Lemma sortedRows_permutation_stable_witness :
  consistent_sort (sortBy "A" asc) rows_5_blank_3 /\
  (row_id <$> sortedRows (sortBy "A" asc) rows_5_blank_3)
  = [VString "row2"; VString "row3"; VString "row1"; VString "row4"] /\
  forall output,
    conforming (sortBy "A" asc) rows_5_blank_3 output ->
    output = sortedRows (sortBy "A" asc) rows_5_blank_3.
Proof.
  assert (consistent_sort (sortBy "A" asc) rows_5_blank_3) as Hcons.
  { right. right. repeat constructor. }
  split; [exact Hcons|]. split; [reflexivity|].
  exact (proj2 (proj2 (proj2
    (sortedRows_permutation_stable (sortBy "A" asc) rows_5_blank_3 Hcons)))).
Defined.

(** X30: When no sort column is set, or the sort column holds values of
    one kind, sorting the sorted rows again with the same column and
    direction changes nothing, whatever conforming sort the engine uses
    for either pass. *)
Theorem sortedRows_twice g rows :
  consistent_sort g rows ->
  sortedRows g (sortedRows g rows) = sortedRows g rows /\
  (forall once twice,
     conforming g rows once -> conforming g once twice -> twice = once).
Proof.
  intros Hcons.
  destruct (sortedRows_is_the_stable_sort g rows Hcons) as [_ Hunique].
  assert (consistent_sort g (sortedRows g rows)) as Hcons'.
  { eapply consistent_sort_perm; [|done]. apply array_sort_perm. }
  destruct (sortedRows_is_the_stable_sort g (sortedRows g rows) Hcons')
    as [_ Hunique'].
  assert (sortedRows g (sortedRows g rows) = sortedRows g rows) as Hidem.
  { unfold sortedRows. apply array_sort_idempotent, compareRows_antisym. }
  split; [done|].
  intros once twice Honce Htwice.
  pose proof (Hunique once Honce) as ->.
  by rewrite (Hunique' twice Htwice).
Qed.

Lemma sortedRows_twice_witness :
  consistent_sort (sortBy "Active" desc) rows_booleans /\
  sortedRows (sortBy "Active" desc) (sortedRows (sortBy "Active" desc) rows_booleans)
  = sortedRows (sortBy "Active" desc) rows_booleans.
Proof.
  assert (consistent_sort (sortBy "Active" desc) rows_booleans) as Hcons.
  { right. right. repeat constructor. }
  split; [exact Hcons|].
  exact (proj1 (sortedRows_twice (sortBy "Active" desc) rows_booleans Hcons)).
Defined.
